(** * OpsBot back end (server.js): the natural-language-to-SQL chat pipeline

    A shallow embedding of [server.js]: the schema introspector
    ([getDatabaseSchema]), the query synthesizer ([generateSQLQuery]), the
    executor ([executeSQLQuery]), the narrator ([generateNaturalResponse]) and
    the two Express handlers built from them ([POST /api/chat] and
    [GET /api/tables]).

    JavaScript strings are sequences of UTF-16 code units; the database pool
    and the generative model are external, so they are oracles of an
    environment, and every call made to them is recorded in a trace. *)

From Stdlib Require Import List NArith ZArith Bool Ascii String Lia.
From Stdlib Require Import DecimalString.
Import ListNotations.

Set Warnings "-register-all".

(* ================================================================= *)
(** ** JavaScript strings *)

Module JsString.

Local Open Scope N_scope.

(** A string is its sequence of UTF-16 code units. *)
Definition jsstring : Type := list N.

(** An ASCII literal as a JavaScript string. *)
Definition js (s : string) : jsstring :=
  map N_of_ascii (list_ascii_of_string s).

Definition jsstring_eqb (a b : jsstring) : bool :=
  if list_eq_dec N.eq_dec a b then true else false.

(** ECMAScript [WhiteSpace] and [LineTerminator]: what [String.prototype.trim]
    removes and what the regular-expression class [\s] matches. *)
Definition is_space (c : N) : bool :=
  (c =? 9) || (c =? 10) || (c =? 11) || (c =? 12) || (c =? 13) ||
  (c =? 32) || (c =? 160) || (c =? 5760) ||
  ((8192 <=? c) && (c <=? 8202)) ||
  (c =? 8232) || (c =? 8233) || (c =? 8239) || (c =? 8287) ||
  (c =? 12288) || (c =? 65279).

(** [s.trimStart()] *)
Fixpoint trimStart (s : jsstring) : jsstring :=
  match s with
  | c :: t => if is_space c then trimStart t else s
  | [] => []
  end.

(** [s.trimEnd()] *)
Fixpoint trimEnd (s : jsstring) : jsstring :=
  match s with
  | c :: t =>
      match trimEnd t with
      | [] => if is_space c then [] else [c]
      | t' => c :: t'
      end
  | [] => []
  end.

(** [s.trim()] *)
Definition trim (s : jsstring) : jsstring := trimEnd (trimStart s).

(** Canonicalisation of a code unit under the [i] flag (no [u] flag): the
    upper-case mapping, except that a code unit of 128 or more never maps
    below 128. Against the ASCII patterns of this program only the ASCII
    letters fold, so other code units are left as they are. *)
Definition canonicalize (c : N) : N :=
  if (97 <=? c) && (c <=? 122) then c - 32 else c.

Definition char_eqb_ci (p c : N) : bool := canonicalize p =? canonicalize c.

(** The rest of [s] after the literal [pat] matched at its start, letters
    compared case-insensitively; [None] when [s] does not start with it. *)
Fixpoint strip_prefix_ci (pat s : jsstring) : option jsstring :=
  match pat, s with
  | [], _ => Some s
  | p :: pat', c :: s' => if char_eqb_ci p c then strip_prefix_ci pat' s' else None
  | _ :: _, [] => None
  end.

(** [s.replace(/^<pat>\s*/i, '')]: anchored at the start, the literal and then
    every white-space character after it (the star is greedy and nothing
    follows it) are removed. *)
Definition replace_leading_ci (pat s : jsstring) : jsstring :=
  match strip_prefix_ci pat s with
  | Some rest => trimStart rest
  | None => s
  end.

(** [\s*] followed by the continuation [k], as a backtracking matcher runs
    it: take a white-space character and go on, and if that fails try [k]
    where it stands. *)
Fixpoint match_space_star (k : jsstring -> bool) (s : jsstring) : bool :=
  match s with
  | c :: t => if is_space c then match_space_star k t || k s else k s
  | [] => k []
  end.

(** A triple backtick. *)
Definition fence : jsstring := [96; 96; 96].

(** Three backticks and then the end of the input ([$] without the [m] flag). *)
Definition fence_at_end (s : jsstring) : bool := jsstring_eqb s fence.

(** [s.replace(/\s*```$/i, '')]: the first position, from the left, where the
    pattern matches; the match reaches the end of the input, so what is left
    is the text before that position. *)
Fixpoint replace_trailing_fence (s : jsstring) : jsstring :=
  if match_space_star fence_at_end s then []
  else match s with
       | c :: t => c :: replace_trailing_fence t
       | [] => []
       end.

(** [true] when [pat] occurs in [s] at its start, compared exactly. *)
Fixpoint starts_with (pat s : jsstring) : bool :=
  match pat, s with
  | [], _ => true
  | p :: pat', c :: s' => (p =? c) && starts_with pat' s'
  | _ :: _, [] => false
  end.

(** [s.includes("```")] *)
Fixpoint has_fence (s : jsstring) : bool :=
  starts_with fence s ||
  match s with
  | _ :: t => has_fence t
  | [] => false
  end.

Definition all_space (s : jsstring) : bool := forallb is_space s.

Definition newline : jsstring := [10].
Definition blank : jsstring := [32].

Definition no_backtick (s : jsstring) : bool :=
  forallb (fun c => negb (c =? 96)) s.

(** [String(n)] for an integer. *)
Definition string_of_Z (z : Z) : jsstring :=
  js (NilEmpty.string_of_int (Z.to_int z)).

(** [parts.join(sep)] *)
Fixpoint join (sep : jsstring) (parts : list jsstring) : jsstring :=
  match parts with
  | [] => []
  | [p] => p
  | p :: rest => p ++ sep ++ join sep rest
  end.

End JsString.

Import JsString.

(* ================================================================= *)
(** ** The clean-up of the model's SQL text (generateSQLQuery, lines 106-113) *)

Definition sql_fence_open : jsstring := js "```sql".
Definition sql_label : jsstring := js "SQL Query:".

(** [sqlQuery.replace(/^```sql\s*/i, '').replace(/\s*```$/i, '')
            .replace(/^SQL Query:\s*/i, '').trim()] *)
Definition cleanedQuery (sqlQuery : jsstring) : jsstring :=
  trim
    (replace_leading_ci sql_label
       (replace_trailing_fence
          (replace_leading_ci sql_fence_open sqlQuery))).

(** [result.response.text().trim()] and then the clean-up. *)
Definition clean_model_text (text : jsstring) : jsstring :=
  cleanedQuery (trim text).

(** The wrappers a model puts around a statement. *)
Definition fenced (w1 w2 inner : jsstring) : jsstring :=
  sql_fence_open ++ w1 ++ inner ++ w2 ++ fence.

Definition labelled (w inner : jsstring) : jsstring :=
  sql_label ++ w ++ inner.

(** White space around the whole response. *)
Definition padded (w0 w4 text : jsstring) : jsstring :=
  w0 ++ text ++ w4.


(* ================================================================= *)
(** ** JavaScript values *)

Module JsValue.

(** The values that travel through the handlers: request fields, the cells
    of database rows, and the objects given to [res.json]. Numbers are the
    integers; an object is the list of its own properties in own-property
    order. *)
Inductive JsVal : Type :=
| JUndefined
| JNull
| JBool (b : bool)
| JNum (z : Z)
| JStr (s : jsstring)
| JArr (items : list JsVal)
| JObj (props : list (jsstring * JsVal)).

(** A row object as the database driver builds it. *)
Definition Row : Type := list (jsstring * JsVal).

(** The truthiness test of [!v], [v || w] and [v && w]. *)
Definition truthy (v : JsVal) : bool :=
  match v with
  | JUndefined | JNull => false
  | JBool b => b
  | JNum z => negb (z =? 0)%Z
  | JStr s => match s with [] => false | _ :: _ => true end
  | JArr _ | JObj _ => true
  end.

(** [String(v)], as a template literal or a property key applies it. *)
Fixpoint to_string (v : JsVal) : jsstring :=
  match v with
  | JUndefined => js "undefined"
  | JNull => js "null"
  | JBool b => if b then js "true" else js "false"
  | JNum z => string_of_Z z
  | JStr s => s
  | JArr items =>
      join (js ",")
        (map (fun x => match x with
                       | JUndefined | JNull => []
                       | _ => to_string x
                       end) items)
  | JObj _ => js "[object Object]"
  end.

(** [o[k]] on a plain data object (own properties only). *)
Fixpoint get (k : jsstring) (props : list (jsstring * JsVal)) : JsVal :=
  match props with
  | [] => JUndefined
  | (k', v) :: rest => if jsstring_eqb k k' then v else get k rest
  end.

Definition field (k : string) (v : JsVal) : JsVal :=
  match v with
  | JObj props => get (js k) props
  | _ => JUndefined
  end.

Definition keys (v : JsVal) : list jsstring :=
  match v with
  | JObj props => map fst props
  | _ => []
  end.

Local Open Scope N_scope.

Definition hex_digit (n : N) : N := if n <? 10 then 48 + n else 87 + n.

(** The six characters of a [\uXXXX] escape. *)
Definition unicode_escape (c : N) : jsstring :=
  [92; 117; hex_digit (c / 4096 mod 16); hex_digit (c / 256 mod 16);
   hex_digit (c / 16 mod 16); hex_digit (c mod 16)].

Definition is_lead_surrogate (c : N) : bool := (55296 <=? c) && (c <=? 56319).
Definition is_trail_surrogate (c : N) : bool := (56320 <=? c) && (c <=? 57343).

(** The inside of a JSON string literal ([QuoteJSONString]). *)
Fixpoint quote_chars (s : jsstring) : jsstring :=
  match s with
  | [] => []
  | c :: t =>
      if c =? 8 then [92; 98] ++ quote_chars t
      else if c =? 9 then [92; 116] ++ quote_chars t
      else if c =? 10 then [92; 110] ++ quote_chars t
      else if c =? 12 then [92; 102] ++ quote_chars t
      else if c =? 13 then [92; 114] ++ quote_chars t
      else if c =? 34 then [92; 34] ++ quote_chars t
      else if c =? 92 then [92; 92] ++ quote_chars t
      else if c <? 32 then unicode_escape c ++ quote_chars t
      else if is_lead_surrogate c then
        match t with
        | d :: t' =>
            if is_trail_surrogate d then c :: d :: quote_chars t'
            else unicode_escape c ++ quote_chars t
        | [] => unicode_escape c
        end
      else if is_trail_surrogate c then unicode_escape c ++ quote_chars t
      else c :: quote_chars t
  end.

Definition quote (s : jsstring) : jsstring := [34] ++ quote_chars s ++ [34].

(** [JSON.stringify(v, null, 2)] at the indentation [ind]; [None] is
    [undefined]. *)
Fixpoint stringify (ind : jsstring) (v : JsVal) {struct v} : option jsstring :=
  match v with
  | JUndefined => None
  | JNull => Some (js "null")
  | JBool b => Some (if b then js "true" else js "false")
  | JNum z => Some (string_of_Z z)
  | JStr s => Some (quote s)
  | JArr items =>
      let ind' := ind ++ [32; 32] in
      let parts :=
        map (fun x => match stringify ind' x with
                      | Some t => t
                      | None => js "null"
                      end) items in
      Some (match parts with
            | [] => js "[]"
            | _ :: _ =>
                [91; 10] ++ ind' ++ join ([44; 10] ++ ind') parts
                ++ [10] ++ ind ++ [93]
            end)
  | JObj props =>
      let ind' := ind ++ [32; 32] in
      let parts :=
        flat_map (fun kv => match kv with
                            | (k, x) =>
                                match stringify ind' x with
                                | Some t => [quote k ++ [58; 32] ++ t]
                                | None => []
                                end
                            end) props in
      Some (match parts with
            | [] => js "{}"
            | _ :: _ =>
                [123; 10] ++ ind' ++ join ([44; 10] ++ ind') parts
                ++ [10] ++ ind ++ [125]
            end)
  end.

Definition JSON_stringify_2 (v : JsVal) : jsstring :=
  match stringify [] v with
  | Some t => t
  | None => js "undefined"
  end.

End JsValue.

Import JsValue.

(* ================================================================= *)
(** ** The outside world: the connection pool and the generative model *)

Module World.

(** A thrown [Error]; handlers read only its [message]. *)
Record JsError : Type := mkError { message : jsstring }.

(** How an awaited call ends. *)
Inductive outcome (A : Type) : Type :=
| Returned (a : A)
| Thrown (e : JsError).
Arguments Returned {A} a.
Arguments Thrown {A} e.

Record FieldDef : Type := mkField { name : jsstring }.

(** What [pool.query] resolves to for one statement, the driver's result
    object: [rows] is an array, [rowCount] is a number or [null] (the command
    tag of [SHOW] or [EXPLAIN] carries no count), and [fields] may be absent
    (the code reads it with [?.]). *)
Record QueryResult : Type := mkResult {
  rows : list Row;
  rowCount : option Z;
  fields : option (list FieldDef)
}.

(** The calls that leave the process. *)
Inductive Event : Type :=
| PoolQuery (sql : jsstring)
| GenerateContent (prompt : jsstring).

(** The database and the model answer as they please: an answer may depend
    on everything that was asked before it in the turn. [model_text] stands
    for [(await model.generateContent(prompt)).response.text()]. *)
Record Env : Type := mkEnv {
  pool_query : list Event -> jsstring -> outcome QueryResult;
  model_text : list Event -> jsstring -> outcome jsstring
}.

(** An [async] function: it reads the environment, extends the trace of
    calls, and returns or throws. Console output is not modelled. *)
Definition IO (A : Type) : Type := Env -> list Event -> outcome A * list Event.

Definition ret {A} (a : A) : IO A := fun _ tr => (Returned a, tr).

Definition throw {A} (e : JsError) : IO A := fun _ tr => (Thrown e, tr).

Definition bind {A B} (c : IO A) (k : A -> IO B) : IO B :=
  fun env tr =>
    match c env tr with
    | (Returned a, tr') => k a env tr'
    | (Thrown e, tr') => (Thrown e, tr')
    end.

(** [try { c } catch (error) { h error }] *)
Definition try_catch {A} (c : IO A) (h : JsError -> IO A) : IO A :=
  fun env tr =>
    match c env tr with
    | (Returned a, tr') => (Returned a, tr')
    | (Thrown e, tr') => h e env tr'
    end.

(** A synchronous computation that may throw, inside an [async] function. *)
Definition lift {A} (o : outcome A) : IO A := fun _ tr => (o, tr).

(** [await pool.query(sql)] *)
Definition await_pool_query (sql : jsstring) : IO QueryResult :=
  fun env tr => (pool_query env tr sql, tr ++ [PoolQuery sql]).

(** [(await model.generateContent(prompt)).response.text()] *)
Definition await_model_text (prompt : jsstring) : IO jsstring :=
  fun env tr => (model_text env tr prompt, tr ++ [GenerateContent prompt]).

End World.

Import World.

Declare Scope io_scope.
Delimit Scope io_scope with io.
Notation "x <- c ;; k" := (bind c (fun x => k))
  (at level 61, c at next level, right associativity) : io_scope.
Local Open Scope io_scope.

(* ================================================================= *)
(** ** server.js *)

Module Server.

Local Open Scope N_scope.

(** A template literal, line by line. *)
Definition lines (ls : list jsstring) : jsstring := join [10] ls.

Definition dquote : jsstring := [34].

(** *** getDatabaseSchema (lines 38-73) *)

Definition schema_query : jsstring :=
  lines
    [ [];
      js "      SELECT ";
      js "        table_name, ";
      js "        column_name, ";
      js "        data_type, ";
      js "        is_nullable,";
      js "        column_default";
      js "      FROM information_schema.columns ";
      js "      WHERE table_schema = 'public' ";
      js "      ORDER BY table_name, ordinal_position;";
      js "    " ].

Record ColumnDescriptor : Type := mkColumn {
  column : JsVal;
  type : JsVal;
  nullable : bool;
  default : JsVal
}.

(** The [schema] object: its own properties in own-property order. *)
Definition SchemaMap : Type := list (jsstring * list ColumnDescriptor).

(** The properties every object literal inherits from [Object.prototype];
    all of them are truthy and none of them has a [push] method. *)
Definition Object_prototype_names : list jsstring :=
  map js
    [ "constructor"%string; "__defineGetter__"%string; "__defineSetter__"%string;
      "hasOwnProperty"%string; "__lookupGetter__"%string;
      "__lookupSetter__"%string; "isPrototypeOf"%string;
      "propertyIsEnumerable"%string; "toString"%string; "valueOf"%string;
      "__proto__"%string; "toLocaleString"%string ].

Definition inherited (k : jsstring) : bool :=
  existsb (jsstring_eqb k) Object_prototype_names.

Definition is_digit (c : N) : bool := (48 <=? c) && (c <=? 57).

Fixpoint digits_value (acc : N) (s : jsstring) : option N :=
  match s with
  | [] => Some acc
  | c :: t => if is_digit c then digits_value (acc * 10 + (c - 48)) t else None
  end.

(** A property key that is an array index (a canonical numeric string below
    2^32 - 1): such keys come first, in ascending order, in the own-property
    order of an object. *)
Definition array_index (k : jsstring) : option N :=
  match k with
  | [] => None
  | [48] => Some 0
  | 48 :: _ => None
  | _ =>
      match digits_value 0 k with
      | Some n => if n <=? 4294967294 then Some n else None
      | None => None
      end
  end.

Fixpoint own_get {A} (k : jsstring) (o : list (jsstring * A)) : option A :=
  match o with
  | [] => None
  | (k', v) :: rest => if jsstring_eqb k k' then Some v else own_get k rest
  end.

(** Assignment to an own property that exists: its place is kept. *)
Fixpoint own_set {A} (k : jsstring) (v : A) (o : list (jsstring * A))
  : list (jsstring * A) :=
  match o with
  | [] => []
  | (k', v') :: rest =>
      if jsstring_eqb k k' then (k', v) :: rest else (k', v') :: own_set k v rest
  end.

Fixpoint insert_index {A} (i : N) (k : jsstring) (v : A)
  (o : list (jsstring * A)) : list (jsstring * A) :=
  match o with
  | [] => [(k, v)]
  | (k', v') :: rest =>
      match array_index k' with
      | Some j => if j <? i then (k', v') :: insert_index i k v rest
                  else (k, v) :: o
      | None => (k, v) :: o
      end
  end.

(** Assignment that creates the property. *)
Definition own_add {A} (k : jsstring) (v : A) (o : list (jsstring * A))
  : list (jsstring * A) :=
  match array_index k with
  | Some i => insert_index i k v o
  | None => o ++ [(k, v)]
  end.

(** [Object.keys(schema)] *)
Definition Object_keys {A} (o : list (jsstring * A)) : list jsstring :=
  map fst o.

Definition push_not_a_function : JsError :=
  mkError (js "schema[row.table_name].push is not a function").

(** The body of the [forEach] callback, for one row. *)
Definition group_row (schema : SchemaMap) (row : Row) : outcome SchemaMap :=
  let table_name := to_string (get (js "table_name") row) in
  let descriptor :=
    mkColumn (get (js "column_name") row)
             (get (js "data_type") row)
             (match get (js "is_nullable") row with
              | JStr s => jsstring_eqb s (js "YES")
              | _ => false
              end)
             (get (js "column_default") row) in
  match own_get table_name schema with
  | Some columns => Returned (own_set table_name (columns ++ [descriptor]) schema)
  | None =>
      if inherited table_name then Thrown push_not_a_function
      else Returned (own_add table_name [descriptor] schema)
  end.

(** [result.rows.forEach(...)] *)
Fixpoint forEach_group (rs : list Row) (schema : SchemaMap) : outcome SchemaMap :=
  match rs with
  | [] => Returned schema
  | row :: rest =>
      match group_row schema row with
      | Returned schema' => forEach_group rest schema'
      | Thrown e => Thrown e
      end
  end.

Definition getDatabaseSchema : IO SchemaMap :=
  try_catch
    (result <- await_pool_query schema_query ;;
     lift (forEach_group (rows result) []))
    (fun error => ret []).

(** *** generateSQLQuery (lines 76-120) *)

Definition columnList (columns : list ColumnDescriptor) : jsstring :=
  join (js ", ")
    (map (fun col => to_string (column col) ++ js " (" ++ to_string (type col) ++ js ")")
         columns).

Definition schemaDescription (schema : SchemaMap) : jsstring :=
  lines
    (map (fun entry =>
            js "Table " ++ dquote ++ fst entry ++ dquote ++ js ": "
            ++ columnList (snd entry))
         schema).

Definition sql_prompt (naturalLanguageQuery : JsVal) (schema : SchemaMap) : jsstring :=
  lines
    [ [];
      js "Given this PostgreSQL database schema:";
      schemaDescription schema;
      [];
      js "Convert this natural language query to SQL:";
      dquote ++ to_string naturalLanguageQuery ++ dquote;
      [];
      js "Rules:";
      js "1. Return ONLY the SQL query, no explanations";
      js "2. Use proper PostgreSQL syntax";
      js "3. Include appropriate WHERE clauses if needed";
      js "4. Limit results to 50 rows for performance";
      js "5. Use table and column names exactly as shown in the schema";
      [];
      js "SQL Query:" ].

Definition generation_failed : JsError :=
  mkError (js "Failed to generate SQL query").

Definition generateSQLQuery (naturalLanguageQuery : JsVal) (schema : SchemaMap)
  : IO jsstring :=
  let prompt := sql_prompt naturalLanguageQuery schema in
  try_catch
    (text <- await_model_text prompt ;;
     let sqlQuery := trim text in
     ret (cleanedQuery sqlQuery))
    (fun error => throw generation_failed).

(** *** executeSQLQuery (lines 123-142) *)

(** The two objects the executor returns: [{success: true, data, rowCount,
    fields}] and [{success: false, error, sqlQuery}]. *)
Inductive SqlResult : Type :=
| SqlSuccess (data : list Row) (rowCount : option Z) (fields : list jsstring)
| SqlFailure (error : jsstring) (sqlQuery : jsstring).

Definition executeSQLQuery (sqlQuery : jsstring) : IO SqlResult :=
  try_catch
    (result <- await_pool_query sqlQuery ;;
     ret (SqlSuccess (rows result) (rowCount result)
            (match fields result with
             | Some fs => map name fs
             | None => []
             end)))
    (fun error => ret (SqlFailure (message error) sqlQuery)).

Definition success (r : SqlResult) : bool :=
  match r with
  | SqlSuccess _ _ _ => true
  | SqlFailure _ _ => false
  end.

(** *** generateNaturalResponse (lines 145-190) *)

Definition rows_value (rs : list Row) : JsVal := JArr (map JObj rs).

Definition narration_prompt (query : jsstring) (sqlResult : SqlResult)
  (originalQuestion : JsVal) : jsstring :=
  match sqlResult with
  | SqlSuccess ((_ :: _) as data) rowCount _ =>
      let dataPreview := firstn 5 data in
      lines
        [ [];
          js "Based on this database query result, provide a natural language answer to the user's question.";
          [];
          js "User's Question: " ++ dquote ++ to_string originalQuestion ++ dquote;
          js "SQL Query Used: " ++ query;
          js "Query Results (showing "
            ++ match rowCount with
               | Some n => string_of_Z n
               | None => js "null"
               end
            ++ js " total rows):";
          JSON_stringify_2 (rows_value dataPreview);
          [];
          js "Provide a clear, helpful response that:";
          js "1. Directly answers the user's question";
          js "2. Includes relevant numbers and data points";
          js "3. Is written in a conversational tone";
          js "4. Mentions if there are more results than shown";
          [];
          js "Response:" ]
  | _ =>
      lines
        [ [];
          js "The database query failed or returned no results.";
          [];
          js "User's Question: " ++ dquote ++ to_string originalQuestion ++ dquote;
          js "SQL Query Attempted: " ++ query;
          js "Error: "
            ++ match sqlResult with
               | SqlFailure ((_ :: _) as error) _ => error
               | _ => js "No results found"
               end;
          [];
          js "Provide a helpful response that:";
          js "1. Explains why no data was found";
          js "2. Suggests alternative ways to phrase the question";
          js "3. Is polite and helpful";
          [];
          js "Response:" ]
  end.

Definition narration_fallback : jsstring :=
  js "I found some data but had trouble explaining it. Please try rephrasing your question.".

Definition generateNaturalResponse (query : jsstring) (sqlResult : SqlResult)
  (originalQuestion : JsVal) : IO jsstring :=
  let prompt := narration_prompt query sqlResult originalQuestion in
  try_catch
    (text <- await_model_text prompt ;;
     ret (trim text))
    (fun error => ret narration_fallback).

(** *** POST /api/chat (lines 193-251) *)

Record Response : Type := mkResponse { status : N; body : JsVal }.

(** [res.json(v)] answers 200 unless [res.status] was called. *)
Definition res_json (v : JsVal) : Response := mkResponse 200 v.

Definition message_required : JsVal :=
  JObj [ (js "error", JStr (js "Message is required")) ].

Definition database_unavailable : jsstring :=
  js "I'm having trouble connecting to the database right now. Please try again later.".

Definition unavailable_body : JsVal :=
  JObj [ (js "response", JStr database_unavailable);
         (js "type", JStr (js "error")) ].

(** [sqlResult.rowCount || 0] *)
Definition resultCount (sqlResult : SqlResult) : Z :=
  match sqlResult with
  | SqlSuccess _ (Some n) _ => if (n =? 0)%Z then 0%Z else n
  | _ => 0%Z
  end.

(** [sqlResult.success && sqlResult.data && sqlResult.data.length > 0] *)
Definition hasData (sqlResult : SqlResult) : bool :=
  match sqlResult with
  | SqlSuccess data _ _ => (0 <? List.length data)%nat
  | SqlFailure _ _ => false
  end.

(** [sqlResult.success ? sqlResult.data?.slice(0, 10) : null] *)
Definition preview (sqlResult : SqlResult) : JsVal :=
  match sqlResult with
  | SqlSuccess data _ _ => rows_value (firstn 10 data)
  | SqlFailure _ _ => JNull
  end.

(** [sqlResult.fields || []] *)
Definition result_fields (sqlResult : SqlResult) : JsVal :=
  match sqlResult with
  | SqlSuccess _ _ fs => JArr (map JStr fs)
  | SqlFailure _ _ => JArr []
  end.

(** The object literal of lines 223-233. *)
Definition chat_response (naturalResponse sqlQuery : jsstring)
  (sqlResult : SqlResult) : JsVal :=
  JObj
    [ (js "response", JStr naturalResponse);
      (js "type", JStr (if success sqlResult then js "success" else js "error"));
      (js "data",
        JObj
          [ (js "sqlQuery", JStr sqlQuery);
            (js "resultCount", JNum (resultCount sqlResult));
            (js "hasData", JBool (hasData sqlResult));
            (js "preview", preview sqlResult);
            (js "fields", result_fields sqlResult) ]) ].

Definition processing_apology : jsstring :=
  js "I encountered an error while processing your request. Please try again or rephrase your question.".

Definition fault_body (error : JsError) : JsVal :=
  JObj [ (js "response", JStr processing_apology);
         (js "type", JStr (js "error"));
         (js "error", JStr (message error)) ].

(** [const { message } = req.body]: destructuring [undefined] or [null]
    throws a [TypeError]; any other value is read for its own property
    [message] (the JSON body parser gives an object). *)
Definition destructure_message (req_body : JsVal) : outcome JsVal :=
  match req_body with
  | JUndefined =>
      Thrown (mkError (js "Cannot destructure property 'message' of 'req.body' as it is undefined."))
  | JNull =>
      Thrown (mkError (js "Cannot destructure property 'message' of 'req.body' as it is null."))
  | JObj props => Returned (get (js "message") props)
  | _ => Returned JUndefined
  end.

(** Lines 197-241, what the handler does with [message]. *)
Definition chat_steps (message : JsVal) : IO Response :=
  if negb (truthy message) then ret (mkResponse 400 message_required)
  else
    schema <- getDatabaseSchema ;;
    if (List.length (Object_keys schema) =? 0)%nat then ret (res_json unavailable_body)
    else
      sqlQuery <- generateSQLQuery message schema ;;
      sqlResult <- executeSQLQuery sqlQuery ;;
      naturalResponse <- generateNaturalResponse sqlQuery sqlResult message ;;
      ret (res_json (chat_response naturalResponse sqlQuery sqlResult)).

(** The handler, given [req.body]. *)
Definition post_api_chat (req_body : JsVal) : IO Response :=
  try_catch
    (message <- lift (destructure_message req_body) ;;
     chat_steps message)
    (fun error => ret (mkResponse 500 (fault_body error))).

(** *** GET /api/tables (lines 273-287) *)

Definition column_value (c : ColumnDescriptor) : JsVal :=
  JObj [ (js "column", column c); (js "type", type c);
         (js "nullable", JBool (nullable c)); (js "default", default c) ].

Definition schema_value (schema : SchemaMap) : JsVal :=
  JObj (map (fun entry => (fst entry, JArr (map column_value (snd entry)))) schema).

Definition tables_body (schema : SchemaMap) : JsVal :=
  JObj [ (js "success", JBool true);
         (js "tables", JArr (map JStr (Object_keys schema)));
         (js "schema", schema_value schema) ].

Definition tables_fault_body (error : JsError) : JsVal :=
  JObj [ (js "success", JBool false); (js "error", JStr (message error)) ].

Definition get_api_tables : IO Response :=
  try_catch
    (schema <- getDatabaseSchema ;;
     ret (res_json (tables_body schema)))
    (fun error => ret (mkResponse 500 (tables_fault_body error))).

(** *** GET /api/health (lines 254-270) *)

Definition health_probe : jsstring := js "SELECT 1 as health_check".

(** The handler; [now] is what [new Date().toISOString()] gives when the
    answer is built. *)
Definition get_api_health (now : jsstring) : IO Response :=
  try_catch
    (dbResult <- await_pool_query health_probe ;;
     ret (res_json
            (JObj [ (js "status", JStr (js "healthy"));
                    (js "database", JStr (js "connected"));
                    (js "timestamp", JStr now) ])))
    (fun error =>
       ret (mkResponse 500
              (JObj [ (js "status", JStr (js "unhealthy"));
                      (js "database", JStr (js "disconnected"));
                      (js "error", JStr (message error));
                      (js "timestamp", JStr now) ]))).

End Server.

Import Server.

(* ================================================================= *)
(** ** A scripted environment and sample data *)

Module Sample.

Definition asked_pool (tr : list Event) : bool :=
  existsb (fun e => match e with PoolQuery _ => true | _ => false end) tr.

Definition asked_model (tr : list Event) : bool :=
  existsb (fun e => match e with GenerateContent _ => true | _ => false end) tr.

(** An environment that answers by position: the first pool query gets
    [catalog], later ones [execution]; the first model call gets [sqlText],
    later ones [narration]. *)
Definition scripted (catalog : outcome QueryResult) (sqlText : outcome jsstring)
  (execution : outcome QueryResult) (narration : outcome jsstring) : Env :=
  mkEnv (fun tr _ => if asked_pool tr then execution else catalog)
        (fun tr _ => if asked_model tr then narration else sqlText).

Definition catalog_row (t c ty n : string) : Row :=
  [ (js "table_name", JStr (js t)); (js "column_name", JStr (js c));
    (js "data_type", JStr (js ty)); (js "is_nullable", JStr (js n));
    (js "column_default", JNull) ].

(** The catalog of a database with one table, [employees(id, name, status)]. *)
Definition employees_catalog : QueryResult :=
  mkResult
    [ catalog_row "employees" "id" "integer" "NO";
      catalog_row "employees" "name" "text" "YES";
      catalog_row "employees" "status" "text" "YES" ]
    (Some 3%Z)
    (Some (map mkField (map js [ "table_name"%string; "column_name"%string;
                                  "data_type"%string; "is_nullable"%string;
                                  "column_default"%string ]))).

Definition employee (i : Z) (n : string) : Row :=
  [ (js "id", JNum i); (js "name", JStr (js n)); (js "status", JStr (js "active")) ].

Definition three_active : QueryResult :=
  mkResult [ employee 1 "Ada"; employee 2 "Grace"; employee 3 "Edsger" ]
           (Some 3%Z)
           (Some (map mkField (map js [ "id"%string; "name"%string; "status"%string ]))).

(** What the driver answers to [SHOW server_version]: a row, and no count
    in the command tag. *)
Definition show_version : QueryResult :=
  mkResult [ [ (js "server_version", JStr (js "16.2")) ] ]
           None
           (Some [ mkField (js "server_version") ]).

Definition connection_refused : JsError := mkError (js "connect ECONNREFUSED").
Definition quota_exceeded : JsError := mkError (js "429 quota exceeded").
Definition no_such_table : JsError :=
  mkError (js "relation employes does not exist").

Definition question : JsVal := JStr (js "show me all active employees").

Definition fenced_answer : jsstring :=
  lines [ js "```sql"; js "SELECT * FROM employees WHERE status = 'active' LIMIT 50;"; js "```" ].

Definition healthy : Env :=
  scripted (Returned employees_catalog) (Returned fenced_answer)
           (Returned three_active) (Returned (js " There are 3 active employees. ")).

Definition sample_sql : jsstring :=
  js "SELECT * FROM employees WHERE status = 'active' LIMIT 50;".

Definition employees_schema : SchemaMap :=
  [ (js "employees",
     [ mkColumn (JStr (js "id")) (JStr (js "integer")) false JNull;
       mkColumn (JStr (js "name")) (JStr (js "text")) true JNull;
       mkColumn (JStr (js "status")) (JStr (js "text")) true JNull ]) ].

(** The calls of a turn up to and including the synthesis. *)
Definition after_synthesis : list Event :=
  [ PoolQuery schema_query; GenerateContent (sql_prompt question employees_schema) ].

(** The database rejects the statement. *)
Definition rejecting : Env :=
  scripted (Returned employees_catalog) (Returned fenced_answer)
           (Thrown no_such_table) (Returned (js "That table does not exist.")).

(** The model is out of quota. *)
Definition muted : Env :=
  scripted (Returned employees_catalog) (Thrown quota_exceeded)
           (Returned three_active) (Thrown quota_exceeded).


(** The statement is answered with a row and no row count. *)
Definition uncounted : Env :=
  scripted (Returned employees_catalog) (Returned fenced_answer)
           (Returned show_version) (Returned (js "The server runs 16.2.")).

(** What the turn of [question] on [healthy] executes, answers and calls. *)
Definition healthy_outcome : SqlResult :=
  SqlSuccess (rows three_active) (Some 3%Z) (map js ["id"; "name"; "status"]%string).

Definition healthy_answer : Response :=
  res_json (chat_response (js "There are 3 active employees.") sample_sql healthy_outcome).

Definition healthy_trace : list Event :=
  after_synthesis
  ++ [ PoolQuery sample_sql;
       GenerateContent (narration_prompt sample_sql healthy_outcome question) ].

(** Six rows, and six rows that differ from them in the sixth. *)
Definition six_rows : list Row :=
  [ employee 1 "Ada"; employee 2 "Grace"; employee 3 "Edsger";
    employee 4 "Barbara"; employee 5 "Tony"; employee 6 "Leslie" ].

Definition six_other_rows : list Row :=
  firstn 5 six_rows ++ [ employee 7 "Robin" ].

(** A catalog of two tables whose rows come interleaved. *)
Definition two_tables_catalog : QueryResult :=
  mkResult
    [ catalog_row "projects" "id" "integer" "NO";
      catalog_row "employees" "id" "integer" "NO";
      catalog_row "projects" "title" "text" "YES";
      catalog_row "employees" "name" "text" "YES" ]
    (Some 4%Z) None.

Definition two_tables : Env :=
  scripted (Returned two_tables_catalog) (Returned fenced_answer)
           (Returned three_active) (Returned (js "Three.")).

(** The catalog lists a table named [constructor] beside [employees]. *)
Definition shadowed : Env :=
  scripted
    (Returned
       (mkResult (rows employees_catalog
                  ++ [ catalog_row "constructor" "id" "integer" "NO" ])
                 (Some 4%Z) None))
    (Returned fenced_answer) (Returned three_active) (Returned (js "Three.")).

(** The database cannot be reached; the model would answer. *)
Definition unreachable : Env :=
  scripted (Thrown connection_refused) (Returned fenced_answer)
           (Thrown connection_refused) (Returned (js "Sorry.")).

End Sample.

Import Sample.

(* ================================================================= *)
(** ** Vocabulary for statements about one chat turn *)

Module Turn.

(** The turn has come as far as the executor: the message passed the
    validation, the schema has a table, and the synthesizer returned
    [sqlQuery]; [tr] is the trace of calls made so far. *)
Definition synthesized (env : Env) (message : JsVal) (sqlQuery : jsstring)
  (tr : list Event) : Prop :=
  truthy message = true /\
  exists schema t1,
    getDatabaseSchema env [] = (Returned schema, t1) /\
    Object_keys schema <> [] /\
    generateSQLQuery message schema env t1 = (Returned sqlQuery, tr).

(** The request body [{message: msg}]. *)
Definition request (msg : JsVal) : JsVal := JObj [ (js "message", msg) ].

(** [resp.data.<k>] *)
Definition data_field (k : string) (resp : Response) : JsVal :=
  field k (field "data" (body resp)).

Definition is_string (v : JsVal) : bool :=
  match v with
  | JStr _ => true
  | _ => false
  end.

Definition keys_are (ks : list string) (v : JsVal) : bool :=
  match v with
  | JObj _ => if list_eq_dec (list_eq_dec N.eq_dec) (keys v) (map js ks) then true else false
  | _ => false
  end.

(** The envelope of the interface: [{response: string, type: "success" |
    "error", data: {sqlQuery, resultCount, hasData, preview, fields}}]. *)
Definition is_envelope (v : JsVal) : bool :=
  keys_are [ "response"%string; "type"%string; "data"%string ] v
  && is_string (field "response" v)
  && match field "type" v with
     | JStr t => jsstring_eqb t (js "success") || jsstring_eqb t (js "error")
     | _ => false
     end
  && keys_are [ "sqlQuery"%string; "resultCount"%string; "hasData"%string;
                "preview"%string; "fields"%string ] (field "data" v).

(** The calls to the generative model, and the queries sent to the pool, in
    a trace. *)
Definition model_calls (tr : list Event) : list Event :=
  filter (fun e => match e with GenerateContent _ => true | _ => false end) tr.

Definition pool_calls (tr : list Event) : list Event :=
  filter (fun e => match e with PoolQuery _ => true | _ => false end) tr.

(** The three ways a turn ends once the message passed the validation. *)
Inductive ending (env : Env) (msg : JsVal) (schema : SchemaMap)
  : Response -> list Event -> Prop :=
| ends_unavailable :
    Object_keys schema = [] ->
    ending env msg schema (res_json unavailable_body) [PoolQuery schema_query]
| ends_fault e :
    Object_keys schema <> [] ->
    model_text env [PoolQuery schema_query] (sql_prompt msg schema) = Thrown e ->
    ending env msg schema (mkResponse 500 (fault_body generation_failed))
      [PoolQuery schema_query; GenerateContent (sql_prompt msg schema)]
| ends_answered sql t2 r n :
    Object_keys schema <> [] ->
    synthesized env msg sql t2 ->
    executeSQLQuery sql env t2 = (Returned r, t2 ++ [PoolQuery sql]) ->
    ending env msg schema (res_json (chat_response n sql r))
      (PoolQuery schema_query :: GenerateContent (sql_prompt msg schema)
       :: PoolQuery sql :: [GenerateContent (narration_prompt sql r msg)]).

End Turn.

Import Turn.

(* ================================================================= *)
(** ** Vocabulary for statements about the stages *)

Module Reading.

(** [a] is a contiguous piece of [s]. *)
Definition piece (a s : jsstring) : Prop :=
  exists before after, s = before ++ a ++ after.

(** What the grouping callback reads from a catalog row: the property key
    [row.table_name] and the descriptor pushed for the row. *)
Definition table_of (row : Row) : jsstring :=
  to_string (get (js "table_name") row).

Definition descriptor_of (row : Row) : ColumnDescriptor :=
  mkColumn (get (js "column_name") row)
           (get (js "data_type") row)
           (match get (js "is_nullable") row with
            | JStr s => jsstring_eqb s (js "YES")
            | _ => false
            end)
           (get (js "column_default") row).

(** The rows of a table, in the order of the catalog. *)
Definition rows_of_table (t : jsstring) (rs : list Row) : list Row :=
  filter (fun row => jsstring_eqb (table_of row) t) rs.

(** Some row names a table like a property of [Object.prototype]. *)
Definition names_inherited (rs : list Row) : bool :=
  existsb (fun row => inherited (table_of row)) rs.

(** The names of [names] that are not in [seen], added to [seen] in the
    order in which they first appear. *)
Fixpoint add_unseen (seen names : list jsstring) : list jsstring :=
  match names with
  | [] => seen
  | n :: rest =>
      add_unseen (if existsb (jsstring_eqb n) seen then seen else seen ++ [n]) rest
  end.

(** No row names a table by an array index (a name like [0] or [42]). *)
Definition no_index_names (rs : list Row) : bool :=
  forallb (fun row => match array_index (table_of row) with
                      | None => true
                      | Some _ => false
                      end) rs.

(** [v[k]] for a key that is not a literal. *)
Definition property (k : jsstring) (v : JsVal) : JsVal :=
  match v with
  | JObj props => get k props
  | _ => JUndefined
  end.

(** The columns under a key after more rows of the table were pushed. *)
Definition gathered (old : option (list ColumnDescriptor)) (new : list Row)
  : option (list ColumnDescriptor) :=
  match old, new with
  | None, [] => None
  | None, _ :: _ => Some (map descriptor_of new)
  | Some columns, _ => Some (columns ++ map descriptor_of new)
  end.

(** The catalog gives the introspector nothing to work with: the query
    fails, or returns no row, or names a table like a property of
    [Object.prototype]. *)
Definition catalog_unusable (env : Env) : Prop :=
  match pool_query env [] schema_query with
  | Thrown _ => True
  | Returned result =>
      rows result = [] \/ names_inherited (rows result) = true
  end.

(** The schema the introspector returns at the start of a turn. *)
Definition introspected (env : Env) : SchemaMap :=
  match getDatabaseSchema env [] with
  | (Returned schema, _) => schema
  | (Thrown _, _) => []
  end.

End Reading.

Import Reading.

(** Evaluation of a turn on a sample environment. *)
Ltac run := vm_compute; reflexivity.

(** [synthesized env question sample_sql after_synthesis] on an environment
    with the employees catalog whose model answers [fenced_answer]. *)
Ltac reach_executor :=
  split; [reflexivity|];
  exists employees_schema, [PoolQuery schema_query];
  split; [run|]; split; [discriminate | run].

(* ================================================================= *)
(** ** Sample runs *)

Example clean_fenced_answer : clean_model_text fenced_answer = sample_sql.
Proof. run. Qed.

Example clean_upper_case_fence_with_label :
  clean_model_text (lines [ js "```SQL"; js "sql query: SELECT 1"; js "```" ])
  = js "SELECT 1".
Proof. run. Qed.

Example clean_strips_a_label_of_the_statement :
  clean_model_text (fenced newline newline (js "SQL Query: x")) = js "x".
Proof. run. Qed.

Example clean_keeps_inner_backticks :
  clean_model_text (lines [ js "```sql"; js "SELECT `a``"; js "```" ])
  = js "SELECT `a``".
Proof. run. Qed.

Example introspect_employees :
  getDatabaseSchema healthy [] = (Returned employees_schema, [PoolQuery schema_query]).
Proof. run. Qed.

Example describe_employees :
  schemaDescription employees_schema
  = js "Table " ++ dquote ++ js "employees" ++ dquote
    ++ js ": id (integer), name (text), status (text)".
Proof. run. Qed.

(** A table named like a property of [Object.prototype] makes the grouping
    throw; the introspector catches that too. *)
Example introspect_table_named_constructor :
  getDatabaseSchema
    (scripted (Returned (mkResult [ catalog_row "constructor" "id" "integer" "NO" ]
                           (Some 1%Z) None))
       (Thrown quota_exceeded) (Thrown no_such_table) (Thrown quota_exceeded)) []
  = (Returned [], [PoolQuery schema_query]).
Proof. run. Qed.

Example own_property_order :
  Object_keys (own_add (js "2") 3%nat (own_add (js "10") 2%nat (own_add (js "b") 1%nat [])))
  = [ js "2"; js "10"; js "b" ].
Proof. run. Qed.

Example stringify_rows :
  JSON_stringify_2 (rows_value [ [ (js "n", JNum 1); (js "s", JStr (js "a b")) ]; [] ])
  = lines [ js "["; js "  {"; js "    " ++ dquote ++ js "n" ++ dquote ++ js ": 1,";
            js "    " ++ dquote ++ js "s" ++ dquote ++ js ": " ++ dquote ++ js "a b" ++ dquote;
            js "  },"; js "  {}"; js "]" ].
Proof. run. Qed.

Example body_without_message :
  post_api_chat (JObj []) healthy [] = (Returned (mkResponse 400 message_required), []).
Proof. run. Qed.

Example no_body_at_all :
  exists resp,
    post_api_chat JUndefined healthy [] = (Returned resp, []) /\
    status resp = 500%N /\
    field "response" (body resp) = JStr processing_apology.
Proof. eexists. split; [run|]. now split. Qed.

(** The scenario of the specification: three active employees. *)
Example three_active_employees :
  exists resp tr,
    post_api_chat (request question) healthy [] = (Returned resp, tr) /\
    status resp = 200%N /\
    is_envelope (body resp) = true /\
    field "response" (body resp) = JStr (js "There are 3 active employees.") /\
    data_field "sqlQuery" resp = JStr sample_sql /\
    data_field "resultCount" resp = JNum 3 /\
    data_field "hasData" resp = JBool true /\
    pool_calls tr = [ PoolQuery schema_query; PoolQuery sample_sql ].
Proof. eexists _, _. split; [run|]. now repeat split. Qed.

(* ================================================================= *)
(** ** Facts about trimming and the three substitutions *)

Section Trimming.

Local Open Scope N_scope.

Lemma jsstring_eqb_eq (a b : jsstring) : jsstring_eqb a b = true <-> a = b.
Proof.
  unfold jsstring_eqb. destruct (list_eq_dec N.eq_dec a b); split; congruence.
Qed.

Lemma jsstring_eqb_refl (a : jsstring) : jsstring_eqb a a = true.
Proof. now apply jsstring_eqb_eq. Qed.

Lemma backtick_not_space (c : N) : is_space c = true -> c <> 96.
Proof. intros H ->. discriminate H. Qed.

Lemma trimStart_all_space (w s : jsstring) :
  all_space w = true -> trimStart (w ++ s) = trimStart s.
Proof.
  induction w as [|c w IH]; simpl; intros H; [reflexivity|].
  apply andb_true_iff in H as [Hc Hw]. rewrite Hc. now apply IH.
Qed.

Lemma trimStart_nil_iff (s : jsstring) :
  trimStart s = [] <-> all_space s = true.
Proof.
  induction s as [|c s IH]; simpl; [tauto|].
  destruct (is_space c); simpl; [exact IH|]. split; discriminate.
Qed.

Lemma trimStart_app_nonspace (a b : jsstring) (c : N) :
  is_space c = false -> trimStart (a ++ c :: b) = trimStart a ++ c :: b.
Proof.
  intros Hc. induction a as [|x a IH]; simpl.
  - now rewrite Hc.
  - destruct (is_space x); [exact IH | reflexivity].
Qed.

Lemma trimStart_idem (s : jsstring) : trimStart (trimStart s) = trimStart s.
Proof.
  induction s as [|c s IH]; simpl; [reflexivity|].
  destruct (is_space c) eqn:Hc; [exact IH|]. simpl. now rewrite Hc.
Qed.

Lemma trimEnd_nil_iff (s : jsstring) :
  trimEnd s = [] <-> all_space s = true.
Proof.
  induction s as [|c s IH]; simpl; [tauto|].
  destruct (trimEnd s) as [|y t'] eqn:Ht.
  - destruct (is_space c); simpl; [tauto|]. split; discriminate.
  - split; [discriminate|]. intros H. apply andb_true_iff in H as [_ H].
    apply IH in H. discriminate H.
Qed.

Lemma trimEnd_cons (c : N) (s : jsstring) :
  trimEnd (c :: s) = if all_space (c :: s) then [] else c :: trimEnd s.
Proof.
  simpl. destruct (trimEnd s) as [|y t'] eqn:Ht.
  - apply trimEnd_nil_iff in Ht. rewrite Ht, andb_true_r.
    now destruct (is_space c).
  - destruct (all_space s) eqn:Hs.
    + apply trimEnd_nil_iff in Hs. congruence.
    + now rewrite andb_false_r.
Qed.

Lemma all_space_app (a b : jsstring) :
  all_space (a ++ b) = all_space a && all_space b.
Proof. apply forallb_app. Qed.

Lemma trimEnd_app_space (s w : jsstring) :
  all_space w = true -> trimEnd (s ++ w) = trimEnd s.
Proof.
  intros Hw. induction s as [|c s IH].
  - simpl. now apply trimEnd_nil_iff.
  - change ((c :: s) ++ w) with (c :: (s ++ w)).
    rewrite !trimEnd_cons, IH.
    change (all_space (c :: s ++ w)) with (is_space c && all_space (s ++ w)).
    change (all_space (c :: s)) with (is_space c && all_space s).
    now rewrite all_space_app, Hw, andb_true_r.
Qed.

Lemma trimEnd_app_nonspace (a b : jsstring) (c : N) :
  is_space c = false -> trimEnd (a ++ c :: b) = a ++ c :: trimEnd b.
Proof.
  intros Hc.
  assert (Hb : trimEnd (c :: b) = c :: trimEnd b).
  { rewrite trimEnd_cons. simpl. now rewrite Hc. }
  induction a as [|x a IH]; [exact Hb|].
  change ((x :: a) ++ c :: b) with (x :: (a ++ c :: b)).
  rewrite trimEnd_cons, IH.
  change (all_space (x :: a ++ c :: b))
    with (is_space x && all_space (a ++ c :: b)).
  rewrite all_space_app. simpl. now rewrite Hc, andb_false_r, andb_false_r.
Qed.

Lemma trimEnd_idem (s : jsstring) : trimEnd (trimEnd s) = trimEnd s.
Proof.
  induction s as [|c s IH]; [reflexivity|].
  rewrite trimEnd_cons. destruct (all_space (c :: s)) eqn:H; [reflexivity|].
  rewrite trimEnd_cons, IH.
  destruct (all_space (c :: trimEnd s)) eqn:H'; [|reflexivity].
  simpl in H, H'. apply andb_true_iff in H' as [Hc H'].
  rewrite Hc in H. simpl in H.
  apply trimEnd_nil_iff in H'. rewrite IH in H'.
  apply trimEnd_nil_iff in H'. congruence.
Qed.

Lemma trim_commute (s : jsstring) : trimStart (trimEnd s) = trimEnd (trimStart s).
Proof.
  induction s as [|c s IH]; [reflexivity|].
  rewrite trimEnd_cons. cbn [all_space forallb trimStart].
  destruct (is_space c) eqn:Hc; cbn [andb].
  - fold (all_space s). destruct (all_space s) eqn:Hs.
    + apply trimStart_nil_iff in Hs. now rewrite Hs.
    + cbn [trimStart]. now rewrite Hc.
  - cbn [trimStart]. rewrite Hc, trimEnd_cons.
    cbn [all_space forallb]. now rewrite Hc.
Qed.

Lemma trim_idem (s : jsstring) : trim (trim s) = trim s.
Proof.
  unfold trim. now rewrite trim_commute, trimEnd_idem, trimStart_idem.
Qed.

Lemma trim_padded (w1 w2 s : jsstring) :
  all_space w1 = true -> all_space w2 = true -> trim (w1 ++ s ++ w2) = trim s.
Proof.
  intros H1 H2. unfold trim.
  now rewrite trimStart_all_space, <- trim_commute, trimEnd_app_space, trim_commute.
Qed.

(** What [trim] returns has no white space at either end. *)
Lemma trim_trimmed (s : jsstring) :
  trimStart (trim s) = trim s /\ trimEnd (trim s) = trim s.
Proof.
  unfold trim. split.
  - now rewrite <- trim_commute, trimStart_idem.
  - apply trimEnd_idem.
Qed.

Lemma trimEnd_prefix (s : jsstring) : exists w, s = trimEnd s ++ w.
Proof.
  induction s as [|c s [w IH]]; [now exists []|].
  rewrite trimEnd_cons. destruct (all_space (c :: s)).
  - now exists (c :: s).
  - exists w. simpl. now rewrite <- IH.
Qed.

End Trimming.

Section Substitutions.

Local Open Scope N_scope.

Lemma all_space_no_backtick (w : jsstring) :
  all_space w = true -> no_backtick w = true.
Proof.
  induction w as [|c w IH]; simpl; [reflexivity|]. intros H.
  apply andb_true_iff in H as [Hc Hw]. rewrite (IH Hw), andb_true_r.
  apply negb_true_iff, N.eqb_neq. now apply backtick_not_space.
Qed.

Lemma starts_with_app (pat a b : jsstring) :
  starts_with pat a = true -> starts_with pat (a ++ b) = true.
Proof.
  revert a. induction pat as [|p pat IH]; intros [|c a]; simpl; try easy.
  intros H. apply andb_true_iff in H as [-> H]. now apply IH.
Qed.

Lemma has_fence_cons (c : N) (s : jsstring) :
  has_fence (c :: s) = starts_with fence (c :: s) || has_fence s.
Proof. reflexivity. Qed.

Lemma has_fence_app_no_backtick (a b : jsstring) :
  no_backtick a = true -> has_fence (a ++ b) = has_fence b.
Proof.
  induction a as [|c a IH]; [reflexivity|]. intros H.
  simpl in H. apply andb_true_iff in H as [Hc Ha].
  change ((c :: a) ++ b) with (c :: (a ++ b)).
  rewrite has_fence_cons, (IH Ha).
  apply negb_true_iff, N.eqb_neq in Hc.
  unfold fence. cbn [starts_with].
  replace (96 =? c) with false; [reflexivity|].
  symmetry. apply N.eqb_neq. congruence.
Qed.

Lemma has_fence_prefix (a b : jsstring) :
  has_fence (a ++ b) = false -> has_fence a = false.
Proof.
  induction a as [|c a IH]; [reflexivity|].
  change ((c :: a) ++ b) with (c :: (a ++ b)).
  rewrite !has_fence_cons. intros H.
  apply orb_false_iff in H as [H1 H2]. rewrite (IH H2), orb_false_r.
  destruct (starts_with fence (c :: a)) eqn:E; [|reflexivity].
  apply starts_with_app with (b := b) in E.
  change ((c :: a) ++ b) with (c :: (a ++ b)) in E. congruence.
Qed.

Lemma has_fence_trimEnd (s : jsstring) :
  has_fence s = false -> has_fence (trimEnd s) = false.
Proof.
  destruct (trimEnd_prefix s) as [w Hw]. intros H.
  rewrite Hw in H. now apply has_fence_prefix in H.
Qed.

(** [\s*```$] matches at the start of [p ++ fence] exactly when [p] is
    white space: the star cannot stop early, a fence does not start with
    white space. *)
Lemma match_fence_suffix (p : jsstring) :
  match_space_star fence_at_end (p ++ fence) = all_space p.
Proof.
  induction p as [|c p IH]; [reflexivity|].
  change ((c :: p) ++ fence) with (c :: (p ++ fence)).
  cbn [match_space_star all_space forallb].
  assert (Hk : fence_at_end (c :: p ++ fence) = false \/ is_space c = false).
  { destruct (fence_at_end (c :: p ++ fence)) eqn:E; [right | now left].
    apply jsstring_eqb_eq in E.
    destruct (is_space c) eqn:Hc; [|reflexivity].
    apply backtick_not_space in Hc. unfold fence in E. congruence. }
  destruct (is_space c) eqn:Hc.
  - destruct Hk as [Hk|Hk]; [|discriminate].
    rewrite Hk, orb_false_r. exact IH.
  - destruct (fence_at_end (c :: p ++ fence)) eqn:E; [|reflexivity].
    apply jsstring_eqb_eq in E. apply (f_equal (@List.length N)) in E.
    simpl in E. rewrite length_app in E. simpl in E. lia.
Qed.

Lemma match_fence_has_fence (s : jsstring) :
  match_space_star fence_at_end s = true -> has_fence s = true.
Proof.
  assert (Hk : forall t, fence_at_end t = true -> has_fence t = true).
  { intros t E. apply jsstring_eqb_eq in E. now subst t. }
  induction s as [|c s IH]; cbn [match_space_star]; [apply Hk|].
  destruct (is_space c); [|apply Hk].
  intros H. apply orb_true_iff in H as [H|H]; [|now apply Hk].
  rewrite has_fence_cons, (IH H). apply orb_true_r.
Qed.

(** The second substitution removes a final fence and the white space
    before it ... *)
Lemma replace_trailing_fence_suffix (p : jsstring) :
  replace_trailing_fence (p ++ fence) = trimEnd p.
Proof.
  induction p as [|c p IH]; [reflexivity|].
  rewrite trimEnd_cons, <- IH, <- (match_fence_suffix (c :: p)).
  reflexivity.
Qed.

(** ... and leaves a text without a fence as it is. *)
Lemma replace_trailing_fence_none (s : jsstring) :
  has_fence s = false -> replace_trailing_fence s = s.
Proof.
  induction s as [|c s IH]; [reflexivity|]. intros H.
  cbn [replace_trailing_fence].
  destruct (match_space_star fence_at_end (c :: s)) eqn:E.
  - apply match_fence_has_fence in E. congruence.
  - rewrite has_fence_cons in H. apply orb_false_iff in H as [_ H].
    now rewrite (IH H).
Qed.

Lemma char_eqb_ci_refl (c : N) : char_eqb_ci c c = true.
Proof. apply N.eqb_refl. Qed.

Lemma strip_prefix_ci_app (pat s : jsstring) :
  strip_prefix_ci pat (pat ++ s) = Some s.
Proof.
  induction pat as [|p pat IH]; [now destruct s|].
  simpl. now rewrite char_eqb_ci_refl.
Qed.

Lemma replace_leading_ci_app (pat s : jsstring) :
  replace_leading_ci pat (pat ++ s) = trimStart s.
Proof. unfold replace_leading_ci. now rewrite strip_prefix_ci_app. Qed.

Lemma sql_label_chars : sql_label = [83; 81; 76; 32; 81; 117; 101; 114; 121] ++ [58].
Proof. reflexivity. Qed.

Lemma sql_fence_open_chars : sql_fence_open = [96; 96; 96; 115; 113; 108].
Proof. reflexivity. Qed.

Lemma trimStart_label (s : jsstring) : trimStart (sql_label ++ s) = sql_label ++ s.
Proof. reflexivity. Qed.

Lemma trimEnd_label (s : jsstring) : trimEnd (sql_label ++ s) = sql_label ++ trimEnd s.
Proof.
  exact (trimEnd_app_nonspace [83; 81; 76; 32; 81; 117; 101; 114; 121] s 58 eq_refl).
Qed.

Lemma label_is_no_fence_open (s : jsstring) :
  replace_leading_ci sql_fence_open (sql_label ++ s) = sql_label ++ s.
Proof. reflexivity. Qed.

Lemma has_fence_label (s : jsstring) : has_fence (sql_label ++ s) = has_fence s.
Proof. now apply has_fence_app_no_backtick. Qed.

Lemma trim_ends_with_fence (s : jsstring) :
  trim (sql_fence_open ++ s ++ fence) = sql_fence_open ++ s ++ fence.
Proof.
  unfold trim.
  change (trimStart (sql_fence_open ++ s ++ fence))
    with (sql_fence_open ++ s ++ fence).
  replace (sql_fence_open ++ s ++ fence)
    with ((sql_fence_open ++ s ++ [96; 96]) ++ 96 :: []) at 1.
  - rewrite trimEnd_app_nonspace by reflexivity.
    unfold fence. now rewrite <- !app_assoc.
  - unfold fence. now rewrite <- !app_assoc.
Qed.

Lemma replace_fence_open (w s : jsstring) :
  all_space w = true ->
  replace_leading_ci sql_fence_open (sql_fence_open ++ w ++ s) = trimStart s.
Proof.
  intros Hw. now rewrite replace_leading_ci_app, trimStart_all_space.
Qed.

(** The clean-up of a text in fences: the fences go, what is between them
    is trimmed, and a label at the start of that goes too. *)
Lemma clean_model_text_fenced (w1 w2 s : jsstring) :
  all_space w1 = true -> all_space w2 = true ->
  clean_model_text (fenced w1 w2 s)
  = trim (replace_leading_ci sql_label (trim s)).
Proof.
  intros H1 H2. unfold clean_model_text, fenced, cleanedQuery.
  rewrite (app_assoc s w2 fence), (app_assoc w1 (s ++ w2) fence).
  rewrite trim_ends_with_fence, <- (app_assoc w1 (s ++ w2) fence).
  rewrite (replace_fence_open _ _ H1).
  change fence with (96 :: [96; 96]) at 1.
  rewrite trimStart_app_nonspace by reflexivity.
  change (96 :: [96; 96]) with fence.
  rewrite replace_trailing_fence_suffix, <- trim_commute.
  now rewrite trimEnd_app_space, trim_commute.
Qed.

Lemma trim_labelled (w s : jsstring) :
  trim (labelled w s) = sql_label ++ trimEnd (w ++ s).
Proof. unfold trim, labelled. now rewrite trimStart_label, trimEnd_label. Qed.

Lemma trim_after_label (w s : jsstring) :
  all_space w = true -> trim (trimStart (trimEnd (w ++ s))) = trim s.
Proof.
  intros Hw. unfold trim.
  rewrite trimStart_idem, trim_commute, trimEnd_idem.
  now rewrite trimStart_all_space.
Qed.

Lemma clean_model_text_labelled (w s : jsstring) :
  all_space w = true -> has_fence s = false ->
  clean_model_text (labelled w s) = trim s.
Proof.
  intros Hw Hs. unfold clean_model_text, cleanedQuery.
  rewrite trim_labelled, label_is_no_fence_open, replace_trailing_fence_none.
  - rewrite replace_leading_ci_app. now apply trim_after_label.
  - rewrite has_fence_label. apply has_fence_trimEnd.
    rewrite has_fence_app_no_backtick; [exact Hs|].
    now apply all_space_no_backtick.
Qed.

Lemma clean_model_text_fenced_labelled (w1 w2 w3 s : jsstring) :
  all_space w1 = true -> all_space w2 = true -> all_space w3 = true ->
  clean_model_text (fenced w1 w2 (labelled w3 s)) = trim s.
Proof.
  intros H1 H2 H3.
  rewrite clean_model_text_fenced, trim_labelled, replace_leading_ci_app by assumption.
  now apply trim_after_label.
Qed.

Lemma clean_model_text_padded (w0 w4 text : jsstring) :
  all_space w0 = true -> all_space w4 = true ->
  clean_model_text (padded w0 w4 text) = clean_model_text text.
Proof.
  intros H0 H4. unfold clean_model_text, padded. now rewrite trim_padded.
Qed.

End Substitutions.

(* ================================================================= *)
(** ** The clean-up undoes the wrappers it knows *)

(** C1, as the code has it. For an inner statement without a triple
    backtick, and any white space between the parts and around the whole:
    a response that is the label [SQL Query:] and the statement, or the
    statement in [```sql] fences with the label inside the fences, cleans up
    to the trimmed statement; so does the statement in fences alone, when
    the trimmed statement does not itself begin with the label. The trimmed
    statement has no white space at either end. (A label put outside the
    fences is the order the three substitutions do not undo.) *)
Theorem cleanup_round_trip (inner w0 w1 w2 w3 w4 : jsstring) :
  all_space w0 = true -> all_space w1 = true -> all_space w2 = true ->
  all_space w3 = true -> all_space w4 = true ->
  has_fence inner = false ->
  clean_model_text (padded w0 w4 (labelled w1 inner)) = trim inner /\
  clean_model_text (padded w0 w4 (fenced w1 w2 (labelled w3 inner))) = trim inner /\
  (strip_prefix_ci sql_label (trim inner) = None ->
   clean_model_text (padded w0 w4 (fenced w1 w2 inner)) = trim inner) /\
  trimStart (trim inner) = trim inner /\ trimEnd (trim inner) = trim inner.
Proof.
  intros H0 H1 H2 H3 H4 Hf.
  rewrite !clean_model_text_padded by assumption.
  split; [now apply clean_model_text_labelled|].
  split; [now apply clean_model_text_fenced_labelled|].
  split; [|apply trim_trimmed].
  intros Hl. rewrite clean_model_text_fenced by assumption.
  unfold replace_leading_ci. rewrite Hl. apply trim_idem.
Qed.

Lemma cleanup_round_trip_witness :
  let inner := js "SELECT name FROM employees LIMIT 50;" in
  clean_model_text (padded [] newline (labelled blank inner)) = trim inner /\
  clean_model_text (padded [] newline (fenced newline newline (labelled blank inner)))
  = trim inner /\
  (strip_prefix_ci sql_label (trim inner) = None ->
   clean_model_text (padded [] newline (fenced newline newline inner)) = trim inner) /\
  trimStart (trim inner) = trim inner /\ trimEnd (trim inner) = trim inner.
Proof.
  apply (cleanup_round_trip (js "SELECT name FROM employees LIMIT 50;")
           [] newline newline blank newline); reflexivity.
Defined.

(** C1 as it is written fails when the label stands outside the fences:
    the opening fence is not at the start of the text, so it stays. *)
Lemma label_outside_fences_is_kept :
  let inner := js "SELECT 1" in
  all_space blank = true /\ all_space newline = true /\ has_fence inner = false /\
  clean_model_text (labelled blank (fenced newline newline inner))
  = sql_fence_open ++ newline ++ inner /\
  clean_model_text (labelled blank (fenced newline newline inner)) <> trim inner.
Proof.
  cbv zeta. repeat split; try reflexivity. vm_compute. discriminate.
Qed.

(* ================================================================= *)
(** ** What each stage does with the answer it gets *)

Section Stages.

Variable env : Env.

Lemma getDatabaseSchema_run (tr : list Event) :
  getDatabaseSchema env tr
  = (Returned
       match pool_query env tr schema_query with
       | Returned result =>
           match forEach_group (rows result) [] with
           | Returned schema => schema
           | Thrown _ => []
           end
       | Thrown _ => []
       end,
     tr ++ [PoolQuery schema_query]).
Proof.
  unfold getDatabaseSchema, try_catch, bind, await_pool_query, lift, ret.
  destruct (pool_query env tr schema_query) as [result|e]; [|reflexivity].
  now destruct (forEach_group (rows result) []).
Qed.

Lemma generateSQLQuery_run (q : JsVal) (schema : SchemaMap) (tr : list Event) :
  generateSQLQuery q schema env tr
  = (match model_text env tr (sql_prompt q schema) with
     | Returned text => Returned (clean_model_text text)
     | Thrown _ => Thrown generation_failed
     end,
     tr ++ [GenerateContent (sql_prompt q schema)]).
Proof.
  unfold generateSQLQuery, try_catch, bind, await_model_text, ret, throw.
  now destruct (model_text env tr (sql_prompt q schema)).
Qed.

Lemma executeSQLQuery_run (sql : jsstring) (tr : list Event) :
  executeSQLQuery sql env tr
  = (Returned
       match pool_query env tr sql with
       | Returned result =>
           SqlSuccess (rows result) (rowCount result)
             match fields result with
             | Some fs => map name fs
             | None => []
             end
       | Thrown e => SqlFailure (message e) sql
       end,
     tr ++ [PoolQuery sql]).
Proof.
  unfold executeSQLQuery, try_catch, bind, await_pool_query, ret.
  now destruct (pool_query env tr sql).
Qed.

Lemma generateNaturalResponse_run (query : jsstring) (r : SqlResult)
  (q : JsVal) (tr : list Event) :
  generateNaturalResponse query r q env tr
  = (Returned
       match model_text env tr (narration_prompt query r q) with
       | Returned text => trim text
       | Thrown _ => narration_fallback
       end,
     tr ++ [GenerateContent (narration_prompt query r q)]).
Proof.
  unfold generateNaturalResponse, try_catch, bind, await_model_text, ret.
  now destruct (model_text env tr (narration_prompt query r q)).
Qed.

Lemma post_api_chat_request (msg : JsVal) (tr : list Event) :
  post_api_chat (request msg) env tr
  = try_catch (chat_steps msg)
      (fun error => ret (mkResponse 500 (fault_body error))) env tr.
Proof. reflexivity. Qed.

(** Any request body either cannot be destructured, which is answered 500,
    or is handled as the body [{message}] with the message it carries. *)
Lemma post_api_chat_any_body (req_body : JsVal) (tr : list Event) :
  (exists e,
     destructure_message req_body = Thrown e /\
     post_api_chat req_body env tr = (Returned (mkResponse 500 (fault_body e)), tr)) \/
  (exists msg,
     destructure_message req_body = Returned msg /\
     post_api_chat req_body env tr = post_api_chat (request msg) env tr).
Proof.
  destruct (destructure_message req_body) as [msg|e] eqn:Hd.
  - right. exists msg. split; [reflexivity|].
    rewrite post_api_chat_request.
    unfold post_api_chat, try_catch, bind, lift. now rewrite Hd.
  - left. exists e. split; [reflexivity|].
    unfold post_api_chat, try_catch, bind, lift, ret. now rewrite Hd.
Qed.

Lemma keys_nonempty (schema : SchemaMap) :
  Object_keys schema <> [] ->
  (List.length (Object_keys schema) =? 0)%nat = false.
Proof. destruct schema; [now intros [] | reflexivity]. Qed.

Lemma post_api_chat_rejects (message : JsVal) (tr : list Event) :
  truthy message = false ->
  post_api_chat (request message) env tr = (Returned (mkResponse 400 message_required), tr).
Proof.
  intros H. rewrite post_api_chat_request. unfold chat_steps, try_catch. now rewrite H.
Qed.

Lemma post_api_chat_unavailable (message : JsVal) (schema : SchemaMap)
  (t1 : list Event) :
  truthy message = true ->
  getDatabaseSchema env [] = (Returned schema, t1) ->
  Object_keys schema = [] ->
  post_api_chat (request message) env [] = (Returned (res_json unavailable_body), t1).
Proof.
  intros Hm Hs Hk. rewrite post_api_chat_request. unfold chat_steps, try_catch, bind.
  rewrite Hm. cbn [negb]. rewrite Hs, Hk. reflexivity.
Qed.

Lemma post_api_chat_fault (message : JsVal) (schema : SchemaMap)
  (t1 t2 : list Event) (e : JsError) :
  truthy message = true ->
  getDatabaseSchema env [] = (Returned schema, t1) ->
  Object_keys schema <> [] ->
  generateSQLQuery message schema env t1 = (Thrown e, t2) ->
  post_api_chat (request message) env [] = (Returned (mkResponse 500 (fault_body e)), t2).
Proof.
  intros Hm Hs Hk Hg. rewrite post_api_chat_request. unfold chat_steps, try_catch, bind.
  rewrite Hm. cbn [negb]. rewrite Hs, (keys_nonempty _ Hk), Hg. reflexivity.
Qed.

Lemma post_api_chat_completes (message : JsVal) (sql n : jsstring)
  (r : SqlResult) (t2 t3 t4 : list Event) :
  synthesized env message sql t2 ->
  executeSQLQuery sql env t2 = (Returned r, t3) ->
  generateNaturalResponse sql r message env t3 = (Returned n, t4) ->
  post_api_chat (request message) env []
  = (Returned (res_json (chat_response n sql r)), t4).
Proof.
  intros (Hm & schema & t1 & Hs & Hk & Hg) He Hn.
  rewrite post_api_chat_request. unfold chat_steps, try_catch, bind.
  rewrite Hm. cbn [negb]. rewrite Hs, (keys_nonempty _ Hk), Hg, He, Hn.
  reflexivity.
Qed.

(** Once the synthesizer has returned, the turn ends with the envelope
    built from what the executor and the narrator return. *)
Lemma post_api_chat_after_synthesis (message : JsVal) (sql : jsstring)
  (t2 : list Event) :
  synthesized env message sql t2 ->
  exists r n t3 t4,
    executeSQLQuery sql env t2 = (Returned r, t3) /\
    t3 = t2 ++ [PoolQuery sql] /\
    generateNaturalResponse sql r message env t3 = (Returned n, t4) /\
    post_api_chat (request message) env []
    = (Returned (res_json (chat_response n sql r)), t4).
Proof.
  intros H. eexists _, _, _, _. split; [apply executeSQLQuery_run|].
  split; [reflexivity|]. split; [apply generateNaturalResponse_run|].
  eapply post_api_chat_completes; [exact H | apply executeSQLQuery_run |].
  apply generateNaturalResponse_run.
Qed.

End Stages.

(* ================================================================= *)
(** ** The chat endpoint *)

Lemma introspection_trace (env : Env) (schema : SchemaMap) (t1 : list Event) :
  getDatabaseSchema env [] = (Returned schema, t1) -> t1 = [PoolQuery schema_query].
Proof. rewrite getDatabaseSchema_run. now intros [= _ <-]. Qed.

Lemma post_api_chat_accepted (env : Env) (msg : JsVal) :
  truthy msg = true ->
  exists schema resp tr,
    getDatabaseSchema env [] = (Returned schema, [PoolQuery schema_query]) /\
    post_api_chat (request msg) env [] = (Returned resp, tr) /\
    ending env msg schema resp tr.
Proof.
  intros Hm.
  pose proof (getDatabaseSchema_run env []) as Hs. cbn [app] in Hs.
  match type of Hs with _ = (Returned ?x, _) => set (schema := x) in * end.
  exists schema.
  destruct (Object_keys schema) as [|k ks] eqn:Hk.
  - eexists _, _. split; [exact Hs|]. split.
    + exact (post_api_chat_unavailable env msg schema _ Hm Hs Hk).
    + now constructor.
  - assert (Hne : Object_keys schema <> []) by (rewrite Hk; discriminate).
    pose proof (generateSQLQuery_run env msg schema [PoolQuery schema_query]) as Hg.
    cbn [app] in Hg.
    destruct (model_text env [PoolQuery schema_query] (sql_prompt msg schema))
      as [text|e] eqn:Ht.
    + assert (Hsyn : synthesized env msg (clean_model_text text)
                       [PoolQuery schema_query; GenerateContent (sql_prompt msg schema)]).
      { split; [exact Hm|]. now exists schema, [PoolQuery schema_query]. }
      destruct (post_api_chat_after_synthesis env msg _ _ Hsyn)
        as (r & n & t3 & t4 & He & -> & Hn & Hp).
      rewrite generateNaturalResponse_run in Hn. injection Hn as _ <-.
      eexists _, _. split; [exact Hs|]. split; [exact Hp|].
      now apply ends_answered with (t2 := [PoolQuery schema_query;
                                           GenerateContent (sql_prompt msg schema)]).
    + eexists _, _. split; [exact Hs|]. split.
      * exact (post_api_chat_fault env msg schema _ _ _ Hm Hs Hne Hg).
      * now apply ends_fault with (e := e).
Qed.

(** C2, as the code has it. The validation is [!message]: the empty
    question is refused with 400 and no call is made; every other question,
    one of white space only included, passes it, and the turn goes on to the
    schema introspection and is answered 200 or 500. *)
Theorem validation_refuses_the_empty_question (env : Env) (s : jsstring) :
  (s = [] ->
   post_api_chat (request (JStr s)) env [] = (Returned (mkResponse 400 message_required), [])) /\
  (s <> [] ->
   exists resp tr,
     post_api_chat (request (JStr s)) env [] = (Returned resp, PoolQuery schema_query :: tr) /\
     status resp <> 400%N).
Proof.
  split.
  - intros ->. now apply post_api_chat_rejects.
  - intros Hs.
    destruct (post_api_chat_accepted env (JStr s)) as (schema & resp & tr & _ & Hp & He).
    + destruct s; [now destruct Hs | reflexivity].
    + rewrite Hp. destruct He; eexists _, _; (split; [reflexivity | discriminate]).
Qed.

Lemma validation_refuses_the_empty_question_witness :
  post_api_chat (request (JStr [])) healthy [] = (Returned (mkResponse 400 message_required), []) /\
  exists resp tr,
    post_api_chat (request (JStr blank)) healthy [] = (Returned resp, PoolQuery schema_query :: tr) /\
    status resp <> 400%N.
Proof.
  split.
  - apply (proj1 (validation_refuses_the_empty_question healthy [])). reflexivity.
  - apply (proj2 (validation_refuses_the_empty_question healthy blank)). discriminate.
Defined.

(** C2 as it is written fails on a question of one space: it is not
    refused, and all four calls of the pipeline are made. *)
Lemma whitespace_question_is_processed :
  all_space blank = true /\
  exists resp tr,
    post_api_chat (request (JStr blank)) healthy [] = (Returned resp, tr) /\
    status resp = 200%N /\
    List.length (pool_calls tr) = 2%nat /\ List.length (model_calls tr) = 2%nat.
Proof.
  split; [reflexivity|]. eexists _, _. split; [vm_compute; reflexivity|].
  repeat split.
Qed.

(** C3, as the code has it. A 200 answer of the chat endpoint, whatever
    the request body, is the full envelope when the schema has a table; on
    the early path, when the schema is empty, it is the two-field object
    [{response, type: "error"}], without [data]. *)
Theorem ok_response_shape (env : Env) (req_body : JsVal) (resp : Response)
  (tr : list Event) :
  post_api_chat req_body env [] = (Returned resp, tr) ->
  status resp = 200%N ->
  exists schema t1,
    getDatabaseSchema env [] = (Returned schema, t1) /\
    ((Object_keys schema <> [] /\ is_envelope (body resp) = true) \/
     (Object_keys schema = [] /\ body resp = unavailable_body /\
      field "data" (body resp) = JUndefined)).
Proof.
  intros Hp Hst.
  destruct (post_api_chat_any_body env req_body []) as [(e & _ & Hb) | (msg & _ & Hb)];
    rewrite Hb in Hp.
  { injection Hp as <- _. discriminate Hst. }
  destruct (truthy msg) eqn:Hm.
  2:{ rewrite post_api_chat_rejects in Hp by exact Hm.
      injection Hp as <- _. discriminate Hst. }
  destruct (post_api_chat_accepted env msg Hm) as (schema & resp' & tr' & Hs & Hp' & He).
  rewrite Hp' in Hp. injection Hp as <- <-.
  exists schema, [PoolQuery schema_query]. split; [exact Hs|].
  destruct He as [Hk | e Hk _ | sql t2 r n Hk _ _].
  - right. now repeat split.
  - discriminate Hst.
  - left. split; [exact Hk|]. now destruct r.
Qed.

Lemma ok_response_shape_witness :
  exists schema t1,
    getDatabaseSchema unreachable [] = (Returned schema, t1) /\
    ((Object_keys schema <> [] /\ is_envelope unavailable_body = true) \/
     (Object_keys schema = [] /\ unavailable_body = unavailable_body /\
      field "data" unavailable_body = JUndefined)).
Proof.
  apply (ok_response_shape unreachable (request question) (res_json unavailable_body)
           [PoolQuery schema_query]); reflexivity.
Defined.

(** C3 as it is written fails on the early path: with the database out of
    reach the answer is 200 and has no [data]. *)
Lemma unavailable_response_has_no_data :
  exists resp tr,
    post_api_chat (request question) unreachable [] = (Returned resp, tr) /\
    status resp = 200%N /\
    field "data" (body resp) = JUndefined /\
    is_envelope (body resp) = false.
Proof.
  eexists _, _. split; [vm_compute; reflexivity|]. repeat split.
Qed.

(** C4. A failed catalog query becomes the empty mapping, not an error; and
    whenever the introspection yields the empty mapping, the turn ends at
    once with the fixed database-unavailable answer of type ["error"]: the
    catalog query is the only call made, no model call and no execution. *)
Theorem empty_schema_short_circuits (env : Env) (msg : JsVal)
  (schema : SchemaMap) (t1 : list Event) :
  truthy msg = true ->
  getDatabaseSchema env [] = (Returned schema, t1) ->
  Object_keys schema = [] ->
  (forall tr e, pool_query env tr schema_query = Thrown e ->
     getDatabaseSchema env tr = (Returned [], tr ++ [PoolQuery schema_query])) /\
  exists resp tr,
    post_api_chat (request msg) env [] = (Returned resp, tr) /\
    status resp = 200%N /\
    body resp = JObj [ (js "response", JStr database_unavailable);
                       (js "type", JStr (js "error")) ] /\
    tr = [PoolQuery schema_query] /\
    model_calls tr = [] /\ pool_calls tr = [PoolQuery schema_query].
Proof.
  intros Hm Hs Hk. split.
  - intros tr e He. rewrite getDatabaseSchema_run, He. reflexivity.
  - exists (res_json unavailable_body), [PoolQuery schema_query].
    rewrite (post_api_chat_unavailable env msg schema t1 Hm Hs Hk).
    rewrite (introspection_trace env schema t1 Hs). now repeat split.
Qed.

Lemma empty_schema_short_circuits_witness :
  (forall tr e, pool_query unreachable tr schema_query = Thrown e ->
     getDatabaseSchema unreachable tr = (Returned [], tr ++ [PoolQuery schema_query])) /\
  exists resp tr,
    post_api_chat (request question) unreachable [] = (Returned resp, tr) /\
    status resp = 200%N /\
    body resp = JObj [ (js "response", JStr database_unavailable);
                       (js "type", JStr (js "error")) ] /\
    tr = [PoolQuery schema_query] /\
    model_calls tr = [] /\ pool_calls tr = [PoolQuery schema_query].
Proof.
  apply (empty_schema_short_circuits unreachable question [] [PoolQuery schema_query]);
    reflexivity.
Defined.

(** C5. When the database rejects the statement, the executor returns a
    failure that carries the error's message and the statement, and throws
    nothing; the turn is then answered 200 with type ["error"],
    [resultCount] 0 and [hasData] false. *)
Theorem rejected_execution_is_reported (env : Env) (msg : JsVal)
  (sql : jsstring) (tr : list Event) (e : JsError) :
  pool_query env tr sql = Thrown e ->
  executeSQLQuery sql env tr
  = (Returned (SqlFailure (message e) sql), tr ++ [PoolQuery sql]) /\
  (synthesized env msg sql tr ->
   exists resp tr',
     post_api_chat (request msg) env [] = (Returned resp, tr') /\
     status resp = 200%N /\
     field "type" (body resp) = JStr (js "error") /\
     data_field "resultCount" resp = JNum 0 /\
     data_field "hasData" resp = JBool false).
Proof.
  intros He.
  assert (Hx : executeSQLQuery sql env tr
               = (Returned (SqlFailure (message e) sql), tr ++ [PoolQuery sql])).
  { rewrite executeSQLQuery_run, He. reflexivity. }
  split; [exact Hx|]. intros Hsyn.
  destruct (post_api_chat_after_synthesis env msg sql tr Hsyn)
    as (r & n & t3 & t4 & Hr & _ & _ & Hp).
  rewrite Hx in Hr. injection Hr as <- _.
  exists (res_json (chat_response n sql (SqlFailure (message e) sql))), t4.
  now repeat split.
Qed.

Lemma rejected_execution_is_reported_witness :
  executeSQLQuery sample_sql rejecting after_synthesis
  = (Returned (SqlFailure (message no_such_table) sample_sql),
     after_synthesis ++ [PoolQuery sample_sql]) /\
  exists resp tr',
    post_api_chat (request question) rejecting [] = (Returned resp, tr') /\
    status resp = 200%N /\
    field "type" (body resp) = JStr (js "error") /\
    data_field "resultCount" resp = JNum 0 /\
    data_field "hasData" resp = JBool false.
Proof.
  destruct (rejected_execution_is_reported rejecting question sample_sql
              after_synthesis no_such_table eq_refl) as [Hx Hp].
  split; [exact Hx|]. apply Hp. reach_executor.
Defined.

(** C7, as the code has it. When the model call of the synthesizer throws,
    the synthesizer catches the error and throws one of its own, with the
    fixed message [Failed to generate SQL query]; the handler's outer catch
    turns that into a 500 answer of type ["error"] with the generic apology
    and the fixed message attached. The handler itself returns, and no
    statement is executed. *)
Theorem synthesis_failure_is_answered_500 (env : Env) (msg : JsVal)
  (schema : SchemaMap) (t1 : list Event) (e : JsError) :
  truthy msg = true ->
  getDatabaseSchema env [] = (Returned schema, t1) ->
  Object_keys schema <> [] ->
  model_text env t1 (sql_prompt msg schema) = Thrown e ->
  generateSQLQuery msg schema env t1
  = (Thrown generation_failed, t1 ++ [GenerateContent (sql_prompt msg schema)]) /\
  exists resp tr,
    post_api_chat (request msg) env [] = (Returned resp, tr) /\
    status resp = 500%N /\
    body resp = JObj [ (js "response", JStr processing_apology);
                       (js "type", JStr (js "error"));
                       (js "error", JStr (message generation_failed)) ] /\
    message generation_failed = js "Failed to generate SQL query" /\
    tr = [PoolQuery schema_query; GenerateContent (sql_prompt msg schema)].
Proof.
  intros Hm Hs Hk He.
  assert (Hg : generateSQLQuery msg schema env t1
               = (Thrown generation_failed,
                  t1 ++ [GenerateContent (sql_prompt msg schema)])).
  { rewrite generateSQLQuery_run, He. reflexivity. }
  split; [exact Hg|].
  eexists _, _. split.
  - exact (post_api_chat_fault env msg schema t1 _ _ Hm Hs Hk Hg).
  - rewrite (introspection_trace env schema t1 Hs). now repeat split.
Qed.

Lemma synthesis_failure_is_answered_500_witness :
  generateSQLQuery question employees_schema muted [PoolQuery schema_query]
  = (Thrown generation_failed, after_synthesis) /\
  exists resp tr,
    post_api_chat (request question) muted [] = (Returned resp, tr) /\
    status resp = 500%N /\
    body resp = JObj [ (js "response", JStr processing_apology);
                       (js "type", JStr (js "error"));
                       (js "error", JStr (message generation_failed)) ] /\
    message generation_failed = js "Failed to generate SQL query" /\
    tr = after_synthesis.
Proof.
  apply (synthesis_failure_is_answered_500 muted question employees_schema
           [PoolQuery schema_query] quota_exceeded);
    [reflexivity | run | discriminate | reflexivity].
Defined.

(** C7 as it is written fails on what is attached: the model's error said
    [429 quota exceeded], the answer carries the synthesizer's fixed message. *)
Lemma model_error_message_is_replaced :
  exists resp tr,
    model_text muted [PoolQuery schema_query] (sql_prompt question employees_schema)
    = Thrown quota_exceeded /\
    post_api_chat (request question) muted [] = (Returned resp, tr) /\
    status resp = 500%N /\
    field "error" (body resp) = JStr (js "Failed to generate SQL query") /\
    field "error" (body resp) <> JStr (message quota_exceeded).
Proof.
  eexists _, _. split; [reflexivity|]. split; [run|].
  repeat split. vm_compute. discriminate.
Qed.



(** C6, as the code has it. After a successful execution [preview] is the
    first ten rows of the result: a prefix of the rows, of length at most
    10. Its length is at most [resultCount] when the driver reports a row
    count that is not below the number of rows; [resultCount] is the
    reported count, not the number of rows. *)
Theorem preview_is_a_bounded_prefix (env : Env) (msg : JsVal) (sql : jsstring)
  (tr : list Event) (result : QueryResult) :
  pool_query env tr sql = Returned result ->
  synthesized env msg sql tr ->
  exists resp tr',
    post_api_chat (request msg) env [] = (Returned resp, tr') /\
    data_field "preview" resp = rows_value (firstn 10 (rows result)) /\
    (exists rest, rows result = firstn 10 (rows result) ++ rest) /\
    (List.length (firstn 10 (rows result)) <= 10)%nat /\
    (forall n,
       rowCount result = Some n ->
       (Z.of_nat (List.length (rows result)) <= n)%Z ->
       data_field "resultCount" resp = JNum n /\
       (Z.of_nat (List.length (firstn 10 (rows result))) <= n)%Z) /\
    (rowCount result = None -> data_field "resultCount" resp = JNum 0).
Proof.
  intros He Hsyn.
  destruct (post_api_chat_after_synthesis env msg sql tr Hsyn)
    as (r & n & t3 & t4 & Hr & _ & _ & Hp).
  rewrite executeSQLQuery_run, He in Hr. injection Hr as <-.
  eexists _, _. split; [exact Hp|]. split; [reflexivity|].
  split; [exists (skipn 10 (rows result)); symmetry; apply firstn_skipn|].
  split; [apply firstn_le_length|]. split.
  - intros c Hc Hle. split.
    + unfold data_field. cbn. rewrite Hc.
      destruct (Z.eqb_spec c 0) as [->|]; reflexivity.
    + rewrite length_firstn. lia.
  - intros Hc. unfold data_field. cbn. now rewrite Hc.
Qed.

Lemma preview_is_a_bounded_prefix_witness :
  exists resp tr',
    post_api_chat (request question) healthy [] = (Returned resp, tr') /\
    data_field "preview" resp = rows_value (firstn 10 (rows three_active)) /\
    (exists rest, rows three_active = firstn 10 (rows three_active) ++ rest) /\
    (List.length (firstn 10 (rows three_active)) <= 10)%nat /\
    (forall n,
       rowCount three_active = Some n ->
       (Z.of_nat (List.length (rows three_active)) <= n)%Z ->
       data_field "resultCount" resp = JNum n /\
       (Z.of_nat (List.length (firstn 10 (rows three_active))) <= n)%Z) /\
    (rowCount three_active = None -> data_field "resultCount" resp = JNum 0).
Proof.
  apply (preview_is_a_bounded_prefix healthy question sample_sql after_synthesis
           three_active eq_refl).
  reach_executor.
Defined.

(** C6 as it is written fails on a result whose row count is [null]: one
    row is previewed and [resultCount] is 0. *)
Lemma preview_longer_than_resultCount :
  exists resp tr,
    post_api_chat (request question) uncounted [] = (Returned resp, tr) /\
    field "type" (body resp) = JStr (js "success") /\
    data_field "preview" resp = rows_value (rows show_version) /\
    List.length (rows show_version) = 1%nat /\
    data_field "resultCount" resp = JNum 0.
Proof.
  eexists _, _. split; [run|]. now repeat split.
Qed.

(** C9. When the execution succeeds and the reported row count is [null]
    or 0, [resultCount] is 0 whatever rows came back, while [hasData] and
    [preview] are computed from the rows. *)
Theorem falsy_row_count_is_zero (env : Env) (msg : JsVal) (sql : jsstring)
  (tr : list Event) (result : QueryResult) :
  pool_query env tr sql = Returned result ->
  rowCount result = None \/ rowCount result = Some 0%Z ->
  synthesized env msg sql tr ->
  exists resp tr',
    post_api_chat (request msg) env [] = (Returned resp, tr') /\
    field "type" (body resp) = JStr (js "success") /\
    data_field "resultCount" resp = JNum 0 /\
    data_field "hasData" resp = JBool (0 <? List.length (rows result))%nat /\
    data_field "preview" resp = rows_value (firstn 10 (rows result)).
Proof.
  intros He Hc Hsyn.
  destruct (post_api_chat_after_synthesis env msg sql tr Hsyn)
    as (r & n & t3 & t4 & Hr & _ & _ & Hp).
  rewrite executeSQLQuery_run, He in Hr. injection Hr as <-.
  eexists _, _. split; [exact Hp|]. split; [reflexivity|].
  split; [|now split].
  unfold data_field. cbn. now destruct Hc as [-> | ->].
Qed.

Lemma falsy_row_count_is_zero_witness :
  exists resp tr',
    post_api_chat (request question) uncounted [] = (Returned resp, tr') /\
    field "type" (body resp) = JStr (js "success") /\
    data_field "resultCount" resp = JNum 0 /\
    data_field "hasData" resp = JBool (0 <? List.length (rows show_version))%nat /\
    data_field "preview" resp = rows_value (firstn 10 (rows show_version)).
Proof.
  apply (falsy_row_count_is_zero uncounted question sample_sql after_synthesis
           show_version eq_refl (or_introl eq_refl)).
  reach_executor.
Defined.

(* ================================================================= *)
(** ** The tables endpoint *)

(** C10. The tables endpoint always answers 200 with [success: true]: the
    introspection never throws, so the 500 branch is never taken; when the
    catalog query fails the answer lists no table and an empty schema. *)
Theorem tables_endpoint_never_fails (env : Env) :
  (exists schema,
     get_api_tables env []
     = (Returned (mkResponse 200 (tables_body schema)), [PoolQuery schema_query])) /\
  (forall resp tr,
     get_api_tables env [] = (Returned resp, tr) ->
     status resp <> 500%N /\ status resp = 200%N /\
     field "success" (body resp) = JBool true) /\
  (forall e,
     pool_query env [] schema_query = Thrown e ->
     get_api_tables env []
     = (Returned
          (mkResponse 200
             (JObj [ (js "success", JBool true);
                     (js "tables", JArr []);
                     (js "schema", JObj []) ])),
        [PoolQuery schema_query])).
Proof.
  assert (H : forall schema,
             getDatabaseSchema env [] = (Returned schema, [PoolQuery schema_query]) ->
             get_api_tables env []
             = (Returned (mkResponse 200 (tables_body schema)), [PoolQuery schema_query])).
  { intros schema Hs. unfold get_api_tables, try_catch, bind. now rewrite Hs. }
  pose proof (getDatabaseSchema_run env []) as Hs. cbn [app] in Hs.
  split; [eexists; apply H, Hs|]. split.
  - intros resp tr Hp. rewrite (H _ Hs) in Hp. injection Hp as <- _.
    repeat split. discriminate.
  - intros e He. rewrite He in Hs. apply (H [] Hs).
Qed.

Lemma tables_endpoint_never_fails_witness :
  get_api_tables unreachable []
  = (Returned
       (mkResponse 200
          (JObj [ (js "success", JBool true);
                  (js "tables", JArr []);
                  (js "schema", JObj []) ])),
     [PoolQuery schema_query]).
Proof.
  apply (proj2 (proj2 (tables_endpoint_never_fails unreachable)) connection_refused).
  reflexivity.
Defined.

(* ================================================================= *)
(** ** More about the clean-up (generateSQLQuery, lines 106-113) *)

Section CleanUp.

Local Open Scope N_scope.

Lemma piece_refl (s : jsstring) : piece s s.
Proof. exists [], []. now rewrite app_nil_r. Qed.

Lemma piece_trans (a b c : jsstring) : piece a b -> piece b c -> piece a c.
Proof.
  intros (p1 & q1 & ->) (p2 & q2 & ->). exists (p2 ++ p1), (q1 ++ q2).
  now rewrite <- !app_assoc.
Qed.

Lemma piece_suffix (w a : jsstring) : piece a (w ++ a).
Proof. exists w, []. now rewrite app_nil_r. Qed.

Lemma piece_prefix (a w : jsstring) : piece a (a ++ w).
Proof. now exists [], w. Qed.

Lemma trimStart_piece (s : jsstring) : piece (trimStart s) s.
Proof.
  induction s as [|c s IH]; [apply piece_refl|]. simpl.
  destruct (is_space c); [|apply piece_refl].
  apply piece_trans with (b := s); [exact IH | apply (piece_suffix [c])].
Qed.

Lemma trimEnd_piece (s : jsstring) : piece (trimEnd s) s.
Proof.
  destruct (trimEnd_prefix s) as [w Hw]. rewrite Hw at 2. apply piece_prefix.
Qed.

Lemma trim_piece (s : jsstring) : piece (trim s) s.
Proof.
  apply piece_trans with (b := trimStart s);
    [apply trimEnd_piece | apply trimStart_piece].
Qed.

Lemma strip_prefix_ci_piece (pat s rest : jsstring) :
  strip_prefix_ci pat s = Some rest -> piece rest s.
Proof.
  revert s. induction pat as [|p pat IH]; intros s H.
  - destruct s; injection H as <-; apply piece_refl.
  - destruct s as [|c s]; [discriminate|]. simpl in H.
    destruct (char_eqb_ci p c); [|discriminate].
    apply piece_trans with (b := s); [now apply IH | apply (piece_suffix [c])].
Qed.

Lemma replace_leading_ci_piece (pat s : jsstring) :
  piece (replace_leading_ci pat s) s.
Proof.
  unfold replace_leading_ci.
  destruct (strip_prefix_ci pat s) as [rest|] eqn:E; [|apply piece_refl].
  apply piece_trans with (b := rest);
    [apply trimStart_piece | now apply strip_prefix_ci_piece with (pat := pat)].
Qed.

Lemma replace_trailing_fence_prefix (s : jsstring) :
  exists w, s = replace_trailing_fence s ++ w.
Proof.
  induction s as [|c s [w Hw]]; [now exists []|].
  cbn [replace_trailing_fence].
  destruct (match_space_star fence_at_end (c :: s)).
  - now exists (c :: s).
  - exists w. simpl. now rewrite <- Hw.
Qed.

Lemma replace_trailing_fence_piece (s : jsstring) :
  piece (replace_trailing_fence s) s.
Proof.
  destruct (replace_trailing_fence_prefix s) as [w Hw].
  rewrite Hw at 2. apply piece_prefix.
Qed.

Lemma cleanedQuery_piece (s : jsstring) : piece (cleanedQuery s) s.
Proof.
  unfold cleanedQuery.
  eapply piece_trans; [apply trim_piece|].
  eapply piece_trans; [apply replace_leading_ci_piece|].
  eapply piece_trans; [apply replace_trailing_fence_piece|].
  apply replace_leading_ci_piece.
Qed.

(** X1. The statement handed to the executor is a contiguous piece of the
    model's text, whatever the text: the clean-up only removes from the two
    ends. It has no white space at either end. *)
Theorem cleanup_only_trims_the_ends (text : jsstring) :
  piece (clean_model_text text) text /\
  trimStart (clean_model_text text) = clean_model_text text /\
  trimEnd (clean_model_text text) = clean_model_text text.
Proof.
  split.
  - unfold clean_model_text.
    eapply piece_trans; [apply cleanedQuery_piece | apply trim_piece].
  - unfold clean_model_text, cleanedQuery. apply trim_trimmed.
Qed.

Lemma has_fence_suffix (a b : jsstring) :
  has_fence (a ++ b) = false -> has_fence b = false.
Proof.
  induction a as [|c a IH]; [easy|].
  change ((c :: a) ++ b) with (c :: (a ++ b)). rewrite has_fence_cons.
  intros H. apply orb_false_iff in H as [_ H]. now apply IH.
Qed.

Lemma has_fence_piece (a s : jsstring) :
  piece a s -> has_fence s = false -> has_fence a = false.
Proof.
  intros (p & q & ->) H. apply has_fence_suffix in H.
  now apply has_fence_prefix in H.
Qed.

Lemma canonicalize_backtick (c : N) : char_eqb_ci 96 c = true -> c = 96.
Proof.
  unfold char_eqb_ci. change (canonicalize 96) with 96. unfold canonicalize.
  destruct ((97 <=? c) && (c <=? 122)) eqn:E; intros H; apply N.eqb_eq in H.
  - apply andb_true_iff in E as [E1 E2].
    apply N.leb_le in E1. apply N.leb_le in E2. lia.
  - now symmetry.
Qed.

(** A text that starts with the opening fence holds a triple backtick. *)
Lemma fence_open_has_fence (s rest : jsstring) :
  strip_prefix_ci sql_fence_open s = Some rest -> has_fence s = true.
Proof.
  rewrite sql_fence_open_chars.
  destruct s as [|a [|b [|c s]]]; cbn [strip_prefix_ci];
    repeat match goal with
           | |- context [char_eqb_ci ?p ?x] => destruct (char_eqb_ci p x) eqn:?
           end; try discriminate.
  intros _.
  repeat match goal with
         | H : char_eqb_ci 96 _ = true |- _ => apply canonicalize_backtick in H
         end.
  subst. reflexivity.
Qed.

(** X2. A model text with no triple backtick that does not begin with the
    label [SQL Query:] (after trimming, letters in either case) is handed to
    the executor trimmed and otherwise as it is. *)
Theorem plain_statement_is_only_trimmed (text : jsstring) :
  has_fence text = false ->
  strip_prefix_ci sql_label (trim text) = None ->
  clean_model_text text = trim text.
Proof.
  intros Hf Hl. unfold clean_model_text, cleanedQuery.
  assert (Hs : has_fence (trim text) = false)
    by exact (has_fence_piece _ _ (trim_piece text) Hf).
  assert (H1 : replace_leading_ci sql_fence_open (trim text) = trim text).
  { unfold replace_leading_ci.
    destruct (strip_prefix_ci sql_fence_open (trim text)) as [rest|] eqn:E;
      [|reflexivity].
    apply fence_open_has_fence in E. congruence. }
  rewrite H1, (replace_trailing_fence_none _ Hs).
  unfold replace_leading_ci. rewrite Hl. apply trim_idem.
Qed.

Lemma plain_statement_is_only_trimmed_witness :
  clean_model_text (js "  SELECT count(*) FROM employees;  ")
  = trim (js "  SELECT count(*) FROM employees;  ").
Proof.
  apply (plain_statement_is_only_trimmed (js "  SELECT count(*) FROM employees;  "));
    reflexivity.
Defined.

Lemma replace_trailing_fence_nonspace (a : N) (s : jsstring) :
  is_space a = false -> a :: s <> fence ->
  replace_trailing_fence (a :: s) = a :: replace_trailing_fence s.
Proof.
  intros Ha Hne. cbn [replace_trailing_fence match_space_star]. rewrite Ha.
  destruct (fence_at_end (a :: s)) eqn:E; [|reflexivity].
  apply jsstring_eqb_eq in E. contradiction.
Qed.

(** X3. An opening fence without the [sql] tag is not removed: when the
    trimmed model text begins with a triple backtick that is followed by
    something other than a backtick, and not by [sql] in either case, the
    statement handed to the executor still begins with the triple
    backtick. *)
Theorem untagged_fence_is_kept (text rest : jsstring) (c : N) :
  trim text = fence ++ c :: rest ->
  c <> 96 ->
  strip_prefix_ci sql_fence_open (trim text) = None ->
  starts_with fence (clean_model_text text) = true.
Proof.
  intros Ht Hc Hn. unfold clean_model_text, cleanedQuery.
  unfold replace_leading_ci at 2. rewrite Hn, Ht.
  change (fence ++ c :: rest) with (96 :: 96 :: 96 :: c :: rest).
  do 3 (rewrite replace_trailing_fence_nonspace;
        [| reflexivity | unfold fence; congruence]).
  remember (replace_trailing_fence (c :: rest)) as y.
  change (replace_leading_ci sql_label (96 :: 96 :: 96 :: y))
    with (96 :: 96 :: 96 :: y).
  unfold trim. change (trimStart (96 :: 96 :: 96 :: y)) with (96 :: 96 :: 96 :: y).
  assert (E : trimEnd (96 :: 96 :: 96 :: y) = 96 :: 96 :: 96 :: trimEnd y)
    by exact (trimEnd_app_nonspace [96; 96] y 96 eq_refl).
  now rewrite E.
Qed.

Lemma untagged_fence_is_kept_witness :
  starts_with fence
    (clean_model_text (lines [ js "```"; js "SELECT 1;"; js "```" ])) = true.
Proof.
  apply (untagged_fence_is_kept (lines [ js "```"; js "SELECT 1;"; js "```" ])
           (js "SELECT 1;" ++ newline ++ fence) 10).
  - reflexivity.
  - discriminate.
  - reflexivity.
Defined.

End CleanUp.

(* ================================================================= *)
(** ** The grouping of the catalog rows (getDatabaseSchema, lines 55-68) *)

Section OwnProperties.

Context {A : Type}.

Lemma own_get_None_iff (k : jsstring) (o : list (jsstring * A)) :
  own_get k o = None <-> ~ In k (Object_keys o).
Proof.
  induction o as [|[k' v] o IH]; simpl; [tauto|].
  destruct (jsstring_eqb k k') eqn:E.
  - apply jsstring_eqb_eq in E. subst. split; [discriminate | tauto].
  - assert (k' <> k).
    { intros ->. rewrite jsstring_eqb_refl in E. discriminate. }
    tauto.
Qed.

Lemma keys_own_set (k : jsstring) (v : A) (o : list (jsstring * A)) :
  Object_keys (own_set k v o) = Object_keys o.
Proof.
  induction o as [|[k' v'] o IH]; simpl; [reflexivity|].
  destruct (jsstring_eqb k k'); simpl; [reflexivity | now rewrite IH].
Qed.

Lemma own_get_own_set_same (k : jsstring) (v w : A) (o : list (jsstring * A)) :
  own_get k o = Some w -> own_get k (own_set k v o) = Some v.
Proof.
  induction o as [|[k' v'] o IH]; simpl; [discriminate|].
  destruct (jsstring_eqb k k') eqn:E; simpl; rewrite E; [reflexivity | exact IH].
Qed.

Lemma own_get_own_set_other (k k' : jsstring) (v : A) (o : list (jsstring * A)) :
  k' <> k -> own_get k' (own_set k v o) = own_get k' o.
Proof.
  intros Hne. induction o as [|[k0 v0] o IH]; simpl; [reflexivity|].
  destruct (jsstring_eqb k k0) eqn:E; simpl.
  - apply jsstring_eqb_eq in E. subst k0.
    destruct (jsstring_eqb k' k) eqn:E'; [|reflexivity].
    apply jsstring_eqb_eq in E'. contradiction.
  - now rewrite IH.
Qed.

Lemma own_get_cons_other (k k' : jsstring) (v : A) (o : list (jsstring * A)) :
  k' <> k -> own_get k' ((k, v) :: o) = own_get k' o.
Proof.
  intros Hne. simpl. destruct (jsstring_eqb k' k) eqn:E; [|reflexivity].
  apply jsstring_eqb_eq in E. contradiction.
Qed.

Lemma own_get_insert_index_same (i : N) (k : jsstring) (v : A)
  (o : list (jsstring * A)) :
  own_get k o = None -> own_get k (insert_index i k v o) = Some v.
Proof.
  induction o as [|[k' v'] o IH]; simpl; intros H.
  - now rewrite jsstring_eqb_refl.
  - destruct (jsstring_eqb k k') eqn:E; [discriminate|].
    destruct (array_index k') as [j|]; [destruct (j <? i)%N|]; simpl;
      rewrite ?E, ?jsstring_eqb_refl; auto.
Qed.

Lemma own_get_insert_index_other (i : N) (k k' : jsstring) (v : A)
  (o : list (jsstring * A)) :
  k' <> k -> own_get k' (insert_index i k v o) = own_get k' o.
Proof.
  intros Hne. induction o as [|[k0 v0] o IH]; simpl.
  - destruct (jsstring_eqb k' k) eqn:E; [|reflexivity].
    apply jsstring_eqb_eq in E. contradiction.
  - destruct (array_index k0) as [j|]; [destruct (j <? i)%N|].
    + simpl. now rewrite IH.
    + now rewrite own_get_cons_other.
    + now rewrite own_get_cons_other.
Qed.

Lemma own_get_app_last (k k' : jsstring) (v : A) (o : list (jsstring * A)) :
  own_get k' (o ++ [(k, v)])
  = match own_get k' o with
    | Some w => Some w
    | None => if jsstring_eqb k' k then Some v else None
    end.
Proof.
  induction o as [|[k0 v0] o IH]; simpl; [reflexivity|].
  destruct (jsstring_eqb k' k0); [reflexivity | exact IH].
Qed.

Lemma own_get_own_add_same (k : jsstring) (v : A) (o : list (jsstring * A)) :
  own_get k o = None -> own_get k (own_add k v o) = Some v.
Proof.
  intros H. unfold own_add. destruct (array_index k).
  - now apply own_get_insert_index_same.
  - now rewrite own_get_app_last, H, jsstring_eqb_refl.
Qed.

Lemma own_get_own_add_other (k k' : jsstring) (v : A) (o : list (jsstring * A)) :
  k' <> k -> own_get k' (own_add k v o) = own_get k' o.
Proof.
  intros Hne. unfold own_add. destruct (array_index k).
  - now apply own_get_insert_index_other.
  - rewrite own_get_app_last. destruct (own_get k' o); [reflexivity|].
    destruct (jsstring_eqb k' k) eqn:E; [|reflexivity].
    apply jsstring_eqb_eq in E. contradiction.
Qed.

Lemma in_keys_insert_index (i : N) (k x : jsstring) (v : A)
  (o : list (jsstring * A)) :
  In x (Object_keys (insert_index i k v o)) <-> x = k \/ In x (Object_keys o).
Proof.
  induction o as [|[k' v'] o IH]; simpl; [intuition|].
  destruct (array_index k') as [j|]; [destruct (j <? i)%N|]; simpl.
  - rewrite IH. intuition.
  - intuition.
  - intuition.
Qed.

Lemma in_keys_own_add (k x : jsstring) (v : A) (o : list (jsstring * A)) :
  In x (Object_keys (own_add k v o)) <-> x = k \/ In x (Object_keys o).
Proof.
  unfold own_add. destruct (array_index k).
  - apply in_keys_insert_index.
  - unfold Object_keys. rewrite map_app, in_app_iff. simpl. intuition.
Qed.

Lemma NoDup_keys_insert_index (i : N) (k : jsstring) (v : A)
  (o : list (jsstring * A)) :
  ~ In k (Object_keys o) -> NoDup (Object_keys o) ->
  NoDup (Object_keys (insert_index i k v o)).
Proof.
  induction o as [|[k' v'] o IH]; simpl; intros Hin Hnd.
  - constructor; [easy | constructor].
  - inversion Hnd as [|? ? Hk' Hnd']; subst.
    assert (Hnew : NoDup (k :: k' :: Object_keys o)).
    { constructor; [exact Hin | exact Hnd]. }
    destruct (array_index k') as [j|]; [destruct (j <? i)%N|]; simpl; auto.
    constructor.
    + rewrite in_keys_insert_index. intros [->|H]; [|contradiction].
      apply Hin. now left.
    + apply IH; [|exact Hnd']. intros H. apply Hin. now right.
Qed.

Lemma NoDup_keys_own_add (k : jsstring) (v : A) (o : list (jsstring * A)) :
  ~ In k (Object_keys o) -> NoDup (Object_keys o) ->
  NoDup (Object_keys (own_add k v o)).
Proof.
  intros Hin Hnd. unfold own_add. destruct (array_index k).
  - now apply NoDup_keys_insert_index.
  - unfold Object_keys. rewrite map_app. simpl.
    apply NoDup_app; repeat split; auto.
    + constructor; [easy | constructor].
    + intros x Hx [<-|[]]. contradiction.
Qed.

End OwnProperties.

Section Grouping.

Lemma group_row_reads (schema : SchemaMap) (row : Row) :
  group_row schema row
  = match own_get (table_of row) schema with
    | Some columns =>
        Returned (own_set (table_of row) (columns ++ [descriptor_of row]) schema)
    | None =>
        if inherited (table_of row) then Thrown push_not_a_function
        else Returned (own_add (table_of row) [descriptor_of row] schema)
    end.
Proof. reflexivity. Qed.

Lemma gathered_nil (old : option (list ColumnDescriptor)) : gathered old [] = old.
Proof. destruct old; simpl; [now rewrite app_nil_r | reflexivity]. Qed.

Lemma rows_of_table_cons (t : jsstring) (row : Row) (rs : list Row) :
  rows_of_table t (row :: rs)
  = if jsstring_eqb (table_of row) t then row :: rows_of_table t rs
    else rows_of_table t rs.
Proof. reflexivity. Qed.

(** One step of the grouping, seen from the key [t]. *)
Lemma group_row_lookup (schema schema' : SchemaMap) (row : Row) (t : jsstring) :
  group_row schema row = Returned schema' ->
  own_get t schema'
  = if jsstring_eqb (table_of row) t
    then gathered (own_get t schema) [row]
    else own_get t schema.
Proof.
  rewrite group_row_reads. intros H.
  destruct (jsstring_eqb (table_of row) t) eqn:E.
  - apply jsstring_eqb_eq in E. subst t.
    destruct (own_get (table_of row) schema) as [columns|] eqn:G.
    + injection H as <-. simpl.
      now apply own_get_own_set_same with (w := columns).
    + destruct (inherited (table_of row)); [discriminate|].
      injection H as <-. simpl. now apply own_get_own_add_same.
  - assert (Hne : t <> table_of row).
    { intros ->. rewrite jsstring_eqb_refl in E. discriminate. }
    destruct (own_get (table_of row) schema) as [columns|].
    + injection H as <-. now apply own_get_own_set_other.
    + destruct (inherited (table_of row)); [discriminate|].
      injection H as <-. now apply own_get_own_add_other.
Qed.

Lemma gathered_step (old : option (list ColumnDescriptor)) (row : Row) (rs : list Row) :
  gathered (gathered old [row]) rs = gathered old (row :: rs).
Proof.
  destruct old as [columns|]; simpl.
  - now rewrite <- app_assoc.
  - destruct rs; simpl; reflexivity.
Qed.

Lemma forEach_group_lookup (rs : list Row) :
  forall acc schema,
    forEach_group rs acc = Returned schema ->
    forall t, own_get t schema = gathered (own_get t acc) (rows_of_table t rs).
Proof.
  induction rs as [|row rs IH]; intros acc schema H t.
  - injection H as <-. now rewrite gathered_nil.
  - cbn [forEach_group] in H.
    destruct (group_row acc row) as [acc'|e] eqn:G; [|discriminate].
    rewrite (IH _ _ H t), (group_row_lookup _ _ _ t G), rows_of_table_cons.
    destruct (jsstring_eqb (table_of row) t); [apply gathered_step | reflexivity].
Qed.

Lemma group_row_NoDup (schema schema' : SchemaMap) (row : Row) :
  group_row schema row = Returned schema' ->
  NoDup (Object_keys schema) -> NoDup (Object_keys schema').
Proof.
  rewrite group_row_reads. intros H Hnd.
  destruct (own_get (table_of row) schema) as [columns|] eqn:G.
  - injection H as <-. now rewrite keys_own_set.
  - destruct (inherited (table_of row)); [discriminate|].
    injection H as <-. apply NoDup_keys_own_add; [|exact Hnd].
    now apply own_get_None_iff.
Qed.

Lemma forEach_group_NoDup (rs : list Row) :
  forall acc schema,
    forEach_group rs acc = Returned schema ->
    NoDup (Object_keys acc) -> NoDup (Object_keys schema).
Proof.
  induction rs as [|row rs IH]; intros acc schema H Hnd.
  - now injection H as <-.
  - cbn [forEach_group] in H.
    destruct (group_row acc row) as [acc'|e] eqn:G; [|discriminate].
    apply (IH _ _ H). now apply (group_row_NoDup _ _ _ G).
Qed.

(** The grouping throws only at a row that names an inherited property. *)
Lemma forEach_group_throws (rs : list Row) :
  forall acc e,
    forEach_group rs acc = Thrown e -> names_inherited rs = true.
Proof.
  induction rs as [|row rs IH]; intros acc e H; [discriminate|].
  cbn [forEach_group] in H. cbn [names_inherited existsb].
  destruct (group_row acc row) as [acc'|e'] eqn:G.
  - apply IH in H. unfold names_inherited in H. rewrite H. apply orb_true_r.
  - rewrite group_row_reads in G.
    destruct (own_get (table_of row) acc); [discriminate|].
    destruct (inherited (table_of row)); [reflexivity | discriminate].
Qed.

(** No own key is an inherited name: such a row throws before a key is made. *)
Lemma group_row_clean (schema schema' : SchemaMap) (row : Row) :
  group_row schema row = Returned schema' ->
  (forall k, In k (Object_keys schema) -> inherited k = false) ->
  forall k, In k (Object_keys schema') -> inherited k = false.
Proof.
  rewrite group_row_reads. intros H Hc k Hk.
  destruct (own_get (table_of row) schema) as [columns|].
  - injection H as <-. rewrite keys_own_set in Hk. now apply Hc.
  - destruct (inherited (table_of row)) eqn:Hi; [discriminate|].
    injection H as <-. apply in_keys_own_add in Hk as [->|Hk]; [exact Hi|].
    now apply Hc.
Qed.

Lemma forEach_group_inherited (rs : list Row) :
  forall acc,
    (forall k, In k (Object_keys acc) -> inherited k = false) ->
    names_inherited rs = true ->
    forEach_group rs acc = Thrown push_not_a_function.
Proof.
  induction rs as [|row rs IH]; intros acc Hc H; [discriminate|].
  cbn [forEach_group]. cbn [names_inherited existsb] in H.
  destruct (group_row acc row) as [acc'|e] eqn:G.
  - apply IH; [now apply (group_row_clean _ _ _ G)|].
    rewrite group_row_reads in G.
    destruct (own_get (table_of row) acc) as [columns|] eqn:Hg.
    + assert (Hi : inherited (table_of row) = false).
      { apply Hc. destruct (in_dec (list_eq_dec N.eq_dec) (table_of row)
                              (Object_keys acc)) as [Hin|Hin]; [exact Hin|].
        apply own_get_None_iff in Hin. congruence. }
      rewrite Hi in H. exact H.
    + destruct (inherited (table_of row)); [discriminate | exact H].
  - rewrite group_row_reads in G.
    destruct (own_get (table_of row) acc); [discriminate|].
    destruct (inherited (table_of row)); [now injection G as <- | discriminate].
Qed.

Lemma rows_of_table_nonempty (t : jsstring) (rs : list Row) :
  rows_of_table t rs <> [] <-> exists row, In row rs /\ table_of row = t.
Proof.
  unfold rows_of_table. split.
  - destruct (filter _ rs) as [|row l] eqn:E; [easy|]. intros _.
    assert (H : In row (filter (fun row => jsstring_eqb (table_of row) t) rs))
      by (rewrite E; now left).
    apply filter_In in H as [Hin Ht]. apply jsstring_eqb_eq in Ht. now exists row.
  - intros (row & Hin & Ht) E.
    assert (H : In row (filter (fun row => jsstring_eqb (table_of row) t) rs)).
    { apply filter_In. split; [exact Hin|]. now apply jsstring_eqb_eq. }
    rewrite E in H. destruct H.
Qed.

(** X4. When the catalog query succeeds and no row names a table like a
    property of [Object.prototype], the introspector returns the rows grouped
    by table: no table twice, the tables are those the rows name, and under
    each table the descriptors of its rows in the order of the catalog. *)
Theorem catalog_rows_are_grouped_by_table (env : Env) (tr : list Event)
  (result : QueryResult) :
  pool_query env tr schema_query = Returned result ->
  names_inherited (rows result) = false ->
  exists schema,
    getDatabaseSchema env tr = (Returned schema, tr ++ [PoolQuery schema_query]) /\
    NoDup (Object_keys schema) /\
    (forall t,
       own_get t schema
       = match rows_of_table t (rows result) with
         | [] => None
         | (_ :: _) as rs => Some (map descriptor_of rs)
         end) /\
    (forall t,
       In t (Object_keys schema)
       <-> exists row, In row (rows result) /\ table_of row = t).
Proof.
  intros Hq Hn. rewrite getDatabaseSchema_run, Hq.
  destruct (forEach_group (rows result) []) as [schema|e] eqn:G.
  2:{ apply forEach_group_throws in G. congruence. }
  exists schema. split; [reflexivity|].
  assert (Hl : forall t,
             own_get t schema
             = match rows_of_table t (rows result) with
               | [] => None
               | (_ :: _) as rs => Some (map descriptor_of rs)
               end).
  { intros t. rewrite (forEach_group_lookup _ _ _ G t). simpl.
    now destruct (rows_of_table t (rows result)). }
  split; [apply (forEach_group_NoDup _ _ _ G); constructor|].
  split; [exact Hl|]. intros t.
  rewrite <- rows_of_table_nonempty.
  destruct (in_dec (list_eq_dec N.eq_dec) t (Object_keys schema)) as [Hin|Hin].
  - split; [|easy]. intros _ E.
    pose proof (Hl t) as H. rewrite E in H.
    now apply own_get_None_iff in H.
  - split; [easy|]. intros Hne. exfalso.
    apply own_get_None_iff in Hin. rewrite Hl in Hin.
    destruct (rows_of_table t (rows result)); [easy | discriminate].
Qed.

Lemma catalog_rows_are_grouped_by_table_witness :
  exists schema,
    getDatabaseSchema healthy [] = (Returned schema, [] ++ [PoolQuery schema_query]) /\
    NoDup (Object_keys schema) /\
    (forall t,
       own_get t schema
       = match rows_of_table t (rows employees_catalog) with
         | [] => None
         | (_ :: _) as rs => Some (map descriptor_of rs)
         end) /\
    (forall t,
       In t (Object_keys schema)
       <-> exists row, In row (rows employees_catalog) /\ table_of row = t).
Proof.
  apply (catalog_rows_are_grouped_by_table healthy [] employees_catalog); reflexivity.
Defined.

Lemma introspected_run (env : Env) :
  getDatabaseSchema env [] = (Returned (introspected env), [PoolQuery schema_query]).
Proof.
  unfold introspected. now rewrite getDatabaseSchema_run.
Qed.

Lemma introspected_empty_iff (env : Env) :
  Object_keys (introspected env) = [] <-> catalog_unusable env.
Proof.
  unfold introspected, catalog_unusable. rewrite getDatabaseSchema_run.
  destruct (pool_query env [] schema_query) as [result|e]; [|easy].
  destruct (forEach_group (rows result) []) as [schema|e] eqn:G.
  - split.
    + intros Hk. left. destruct (rows result) as [|row rs] eqn:Hr; [reflexivity|].
      exfalso.
      pose proof (forEach_group_lookup _ _ _ G (table_of row)) as H.
      rewrite rows_of_table_cons, jsstring_eqb_refl in H. simpl in H.
      assert (Hin : In (table_of row) (Object_keys schema)).
      { destruct (in_dec (list_eq_dec N.eq_dec) (table_of row) (Object_keys schema))
          as [Hin|Hin]; [exact Hin|].
        apply own_get_None_iff in Hin. congruence. }
      rewrite Hk in Hin. destruct Hin.
    + intros [Hr|Hn].
      * rewrite Hr in G. now injection G as <-.
      * rewrite forEach_group_inherited in G; [discriminate | easy | exact Hn].
  - split; [|reflexivity]. intros _. right. now apply forEach_group_throws in G.
Qed.

Lemma own_get_existsb {A} (k : jsstring) (o : list (jsstring * A)) :
  existsb (jsstring_eqb k) (Object_keys o)
  = match own_get k o with Some _ => true | None => false end.
Proof.
  induction o as [|[k' v] o IH]; simpl; [reflexivity|].
  destruct (jsstring_eqb k k'); [reflexivity | exact IH].
Qed.

Lemma group_row_order (schema schema' : SchemaMap) (row : Row) :
  group_row schema row = Returned schema' ->
  array_index (table_of row) = None ->
  Object_keys schema'
  = if existsb (jsstring_eqb (table_of row)) (Object_keys schema)
    then Object_keys schema
    else Object_keys schema ++ [table_of row].
Proof.
  rewrite group_row_reads, own_get_existsb. intros H Hi.
  destruct (own_get (table_of row) schema) as [columns|].
  - injection H as <-. apply keys_own_set.
  - destruct (inherited (table_of row)); [discriminate|].
    injection H as <-. unfold own_add. rewrite Hi.
    unfold Object_keys. now rewrite map_app.
Qed.

Lemma forEach_group_order (rs : list Row) :
  forall acc schema,
    forEach_group rs acc = Returned schema ->
    no_index_names rs = true ->
    Object_keys schema = add_unseen (Object_keys acc) (map table_of rs).
Proof.
  induction rs as [|row rs IH]; intros acc schema H Hn.
  - now injection H as <-.
  - cbn [forEach_group] in H. cbn [no_index_names forallb] in Hn.
    apply andb_true_iff in Hn as [Hi Hn].
    destruct (group_row acc row) as [acc'|e] eqn:G; [|discriminate].
    rewrite (IH _ _ H Hn). cbn [map add_unseen].
    rewrite (group_row_order _ _ _ G); [reflexivity|].
    now destruct (array_index (table_of row)).
Qed.

(** X13. When the catalog query succeeds and no table is named like a
    property of [Object.prototype] or by an array index, the schema lists
    the tables in the order in which the catalog first names them, and so
    does [tables] in the answer of the tables endpoint. *)
Theorem tables_keep_the_catalog_order (env : Env) (result : QueryResult) :
  pool_query env [] schema_query = Returned result ->
  names_inherited (rows result) = false ->
  no_index_names (rows result) = true ->
  Object_keys (introspected env) = add_unseen [] (map table_of (rows result)) /\
  exists resp tr,
    get_api_tables env [] = (Returned resp, tr) /\
    field "tables" (body resp)
    = JArr (map JStr (add_unseen [] (map table_of (rows result)))).
Proof.
  intros Hq Hn Hi.
  assert (E : Object_keys (introspected env)
              = add_unseen [] (map table_of (rows result))).
  { unfold introspected. rewrite getDatabaseSchema_run, Hq.
    destruct (forEach_group (rows result) []) as [schema|e] eqn:G.
    - apply (forEach_group_order _ _ _ G Hi).
    - apply forEach_group_throws in G. congruence. }
  split; [exact E|].
  eexists _, _. split.
  - unfold get_api_tables, try_catch, bind. now rewrite introspected_run.
  - cbn. now rewrite E.
Qed.

Lemma tables_keep_the_catalog_order_witness :
  Object_keys (introspected two_tables) = [ js "projects"; js "employees" ] /\
  exists resp tr,
    get_api_tables two_tables [] = (Returned resp, tr) /\
    field "tables" (body resp)
    = JArr (map JStr [ js "projects"; js "employees" ]).
Proof.
  apply (tables_keep_the_catalog_order two_tables two_tables_catalog); reflexivity.
Defined.

End Grouping.

(* ================================================================= *)
(** ** More about the two endpoints that read the schema *)

Section SchemaEndpoints.

Variable env : Env.

Lemma get_schema_value (t : jsstring) (schema : SchemaMap) :
  get t (map (fun entry => (fst entry, JArr (map column_value (snd entry)))) schema)
  = match own_get t schema with
    | Some columns => JArr (map column_value columns)
    | None => JUndefined
    end.
Proof.
  induction schema as [|[k columns] schema IH]; simpl; [reflexivity|].
  destruct (jsstring_eqb t k); [reflexivity | exact IH].
Qed.

Lemma introspected_columns (t : jsstring) (columns : list ColumnDescriptor) :
  own_get t (introspected env) = Some columns -> columns <> [].
Proof.
  unfold introspected. rewrite getDatabaseSchema_run.
  destruct (pool_query env [] schema_query) as [result|e]; [|discriminate].
  destruct (forEach_group (rows result) []) as [schema|e] eqn:G; [|discriminate].
  rewrite (forEach_group_lookup _ _ _ G t). simpl.
  destruct (rows_of_table t (rows result)); [discriminate|].
  intros [= <-]. discriminate.
Qed.

Lemma introspected_NoDup : NoDup (Object_keys (introspected env)).
Proof.
  unfold introspected. rewrite getDatabaseSchema_run.
  destruct (pool_query env [] schema_query) as [result|e]; [|constructor].
  destruct (forEach_group (rows result) []) as [schema|e] eqn:G; [|constructor].
  apply (forEach_group_NoDup _ _ _ G). constructor.
Qed.

(** X5. In every answer of the tables endpoint, [tables] and the keys of
    [schema] are the same names in the same order, no name occurs twice,
    and every listed table has a non-empty array of columns in [schema]. *)
Theorem tables_and_schema_agree :
  exists names tr,
    get_api_tables env [] = (Returned (mkResponse 200 (tables_body (introspected env))), tr) /\
    field "tables" (tables_body (introspected env)) = JArr (map JStr names) /\
    keys (field "schema" (tables_body (introspected env))) = names /\
    NoDup names /\
    forall t, In t names ->
      exists c cs,
        property t (field "schema" (tables_body (introspected env))) = JArr (c :: cs).
Proof.
  exists (Object_keys (introspected env)), [PoolQuery schema_query].
  split.
  { unfold get_api_tables, try_catch, bind. now rewrite introspected_run. }
  split; [reflexivity|].
  split.
  { cbn. unfold Object_keys. rewrite map_map. reflexivity. }
  split; [apply introspected_NoDup|].
  intros t Hin. cbn. rewrite get_schema_value.
  destruct (own_get t (introspected env)) as [columns|] eqn:G.
  - pose proof (introspected_columns _ _ G) as Hne.
    destruct columns as [|c cs]; [easy|]. simpl. eauto.
  - apply own_get_None_iff in G. contradiction.
Qed.

(** X6. For a question that passes the validation, the chat endpoint gives
    the database-unavailable answer exactly when the catalog query failed,
    returned no row, or named a table like a property of [Object.prototype]
    (the grouping then throws and the whole schema is dropped); these are
    also exactly the cases in which the introspected schema is empty. *)
Theorem unavailable_exactly_when_catalog_unusable (msg : JsVal) :
  truthy msg = true ->
  (Object_keys (introspected env) = [] <-> catalog_unusable env) /\
  (fst (post_api_chat (request msg) env []) = Returned (res_json unavailable_body)
   <-> catalog_unusable env).
Proof.
  intros Hm. split; [apply introspected_empty_iff|].
  rewrite <- introspected_empty_iff. split.
  - intros Hp.
    destruct (post_api_chat_accepted env msg Hm)
      as (schema & resp & tr & Hs & Hp' & He).
    rewrite introspected_run in Hs. injection Hs as <-.
    rewrite Hp' in Hp. cbn [fst] in Hp. injection Hp as ->.
    inversion He; try assumption; discriminate.
  - intros Hk.
    now rewrite (post_api_chat_unavailable env msg _ _ Hm (introspected_run env) Hk).
Qed.

End SchemaEndpoints.

Lemma unavailable_exactly_when_catalog_unusable_witness :
  catalog_unusable shadowed /\
  Object_keys (introspected shadowed) = [] /\
  fst (post_api_chat (request question) shadowed [])
  = Returned (res_json unavailable_body).
Proof.
  assert (H : catalog_unusable shadowed) by (right; reflexivity).
  destruct (unavailable_exactly_when_catalog_unusable shadowed question eq_refl)
    as [H1 H2].
  split; [exact H|]. split; [now apply H1 | now apply H2].
Defined.

(* ================================================================= *)
(** ** More about the chat endpoint (lines 193-251) *)

Section ChatTurn.

Variable env : Env.

(** How a turn ends, for any request body. *)
Lemma post_api_chat_ends (req_body : JsVal) :
  exists resp tr,
    post_api_chat req_body env [] = (Returned resp, tr) /\
    ((exists e,
        destructure_message req_body = Thrown e /\
        resp = mkResponse 500 (fault_body e) /\ tr = []) \/
     (exists msg,
        destructure_message req_body = Returned msg /\ truthy msg = false /\
        resp = mkResponse 400 message_required /\ tr = []) \/
     (exists msg,
        destructure_message req_body = Returned msg /\ truthy msg = true /\
        ending env msg (introspected env) resp tr)).
Proof.
  destruct (post_api_chat_any_body env req_body [])
    as [(e & Hd & Hb) | (msg & Hd & Hb)]; rewrite Hb.
  - eexists _, _. split; [reflexivity|]. left. now exists e.
  - destruct (truthy msg) eqn:Hm.
    + destruct (post_api_chat_accepted env msg Hm)
        as (schema & resp & tr & Hs & Hp & He).
      rewrite introspected_run in Hs. injection Hs as <-.
      exists resp, tr. split; [exact Hp|]. right. right. now exists msg.
    + rewrite (post_api_chat_rejects env msg [] Hm).
      eexists _, _. split; [reflexivity|]. right. left. now exists msg.
Qed.



(** A full envelope comes from a turn that went through all four stages. *)
Lemma envelope_comes_from_a_full_turn (req_body : JsVal) (resp : Response)
  (tr : list Event) :
  post_api_chat req_body env [] = (Returned resp, tr) ->
  is_envelope (body resp) = true ->
  exists msg text n,
    destructure_message req_body = Returned msg /\
    model_text env [PoolQuery schema_query] (sql_prompt msg (introspected env))
    = Returned text /\
    let sql := clean_model_text text in
    let t2 := [PoolQuery schema_query;
               GenerateContent (sql_prompt msg (introspected env))] in
    let r := match pool_query env t2 sql with
             | Returned result =>
                 SqlSuccess (rows result) (rowCount result)
                   match fields result with
                   | Some fs => map name fs
                   | None => []
                   end
             | Thrown e => SqlFailure (message e) sql
             end in
    resp = res_json (chat_response n sql r) /\
    tr = t2 ++ [PoolQuery sql; GenerateContent (narration_prompt sql r msg)].
Proof.
  intros Hp Henv.
  destruct (post_api_chat_ends req_body)
    as (resp' & tr' & Hp' & [(e & _ & Hr & _) | [(msg & _ & _ & Hr & _)
                                                | (msg & Hd & Hm & He)]]);
    rewrite Hp' in Hp; injection Hp as <- <-.
  - rewrite Hr in Henv. discriminate Henv.
  - rewrite Hr in Henv. discriminate Henv.
  - destruct He as [Hk | e Hk Ht | sql t2 r n Hk Hsyn Hx];
      [discriminate Henv | discriminate Henv |].
    destruct Hsyn as (_ & schema' & t1 & Hs' & _ & Hg).
    rewrite introspected_run in Hs'. injection Hs' as <- <-.
    rewrite generateSQLQuery_run in Hg.
    destruct (model_text env [PoolQuery schema_query]
                (sql_prompt msg (introspected env))) as [text|e] eqn:Ht;
      [|discriminate].
    injection Hg as <- <-.
    rewrite executeSQLQuery_run in Hx. injection Hx as <-.
    exists msg, text, n. split; [exact Hd|]. split; [exact Ht|].
    cbv zeta. split; reflexivity.
Qed.

(** X9. In every full envelope the endpoint answers, [data.sqlQuery] is the
    cleaned text of the model's answer to the synthesis prompt, and it is the
    one statement sent to the pool after the catalog query; [type] is
    ["success"] exactly when the pool accepted that statement. *)
Theorem executed_statement_is_reported (req_body : JsVal) (resp : Response)
  (tr : list Event) :
  post_api_chat req_body env [] = (Returned resp, tr) ->
  is_envelope (body resp) = true ->
  exists msg text sql,
    destructure_message req_body = Returned msg /\
    model_text env [PoolQuery schema_query] (sql_prompt msg (introspected env))
    = Returned text /\
    sql = clean_model_text text /\
    data_field "sqlQuery" resp = JStr sql /\
    pool_calls tr = [PoolQuery schema_query; PoolQuery sql] /\
    (field "type" (body resp) = JStr (js "success") <->
     exists result,
       pool_query env
         [PoolQuery schema_query; GenerateContent (sql_prompt msg (introspected env))]
         sql
       = Returned result).
Proof.
  intros Hp Henv.
  destruct (envelope_comes_from_a_full_turn req_body resp tr Hp Henv)
    as (msg & text & n & Hd & Ht & Hr & Htr).
  cbv zeta in Hr, Htr.
  exists msg, text, (clean_model_text text).
  split; [exact Hd|]. split; [exact Ht|]. split; [reflexivity|].
  rewrite Hr, Htr. split; [reflexivity|]. split; [reflexivity|].
  cbn [body res_json chat_response field get].
  destruct (pool_query env _ (clean_model_text text)) as [result|e].
  - split; [intros _; now exists result | reflexivity].
  - split; [discriminate | intros [result H]; discriminate H].
Qed.

Lemma envelope_reads (n sql : jsstring) (r : SqlResult) :
  let resp := res_json (chat_response n sql r) in
  field "type" (body resp) = JStr (if success r then js "success" else js "error") /\
  data_field "sqlQuery" resp = JStr sql /\
  data_field "resultCount" resp = JNum (resultCount r) /\
  data_field "hasData" resp = JBool (hasData r) /\
  data_field "preview" resp = preview r /\
  data_field "fields" resp = result_fields r.
Proof. now repeat split. Qed.

(** X10. In every full envelope the endpoint answers, [hasData] is true
    exactly when [preview] is a non-empty array; with [type] ["error"],
    [preview] is [null], [fields] is empty, [resultCount] is 0 and [hasData]
    is false; with [type] ["success"], [preview] is an array of at most ten
    rows and [fields] an array of strings. *)
Theorem envelope_fields_agree (req_body : JsVal) (resp : Response)
  (tr : list Event) :
  post_api_chat req_body env [] = (Returned resp, tr) ->
  is_envelope (body resp) = true ->
  (data_field "hasData" resp = JBool true <->
   exists row more, data_field "preview" resp = JArr (row :: more)) /\
  (field "type" (body resp) = JStr (js "error") ->
   data_field "preview" resp = JNull /\
   data_field "fields" resp = JArr [] /\
   data_field "resultCount" resp = JNum 0 /\
   data_field "hasData" resp = JBool false) /\
  (field "type" (body resp) = JStr (js "success") ->
   exists previewed names,
     data_field "preview" resp = JArr (map JObj previewed) /\
     (List.length previewed <= 10)%nat /\
     data_field "fields" resp = JArr (map JStr names)).
Proof.
  intros Hp Henv.
  destruct (envelope_comes_from_a_full_turn req_body resp tr Hp Henv)
    as (msg & text & n & _ & _ & Hr & _).
  cbv zeta in Hr. rewrite Hr.
  match goal with
  | |- context [chat_response n ?sql ?r] =>
      destruct (envelope_reads n sql r) as (Ht & _ & Hc & Hh & Hv & Hf);
      cbv zeta in Ht, Hc, Hh, Hv, Hf; rewrite Ht, Hc, Hh, Hv, Hf;
      generalize r
  end.
  intros [data rc fs | err q]; cbn [success hasData preview result_fields resultCount].
  - split.
    + destruct data as [|row rs].
      * split; [discriminate | intros (? & ? & H); discriminate H].
      * split; [intros _ | reflexivity].
        now exists (JObj row), (map JObj (firstn 9 rs)).
    + split; [discriminate|]. intros _.
      exists (firstn 10 data), fs.
      split; [reflexivity|]. split; [apply firstn_le_length | reflexivity].
  - split.
    + split; [discriminate | intros (? & ? & H); discriminate H].
    + split; [now intros _ | discriminate].
Qed.

End ChatTurn.

Lemma executed_statement_is_reported_witness :
  exists msg text sql,
    destructure_message (request question) = Returned msg /\
    model_text healthy [PoolQuery schema_query] (sql_prompt msg (introspected healthy))
    = Returned text /\
    sql = clean_model_text text /\
    data_field "sqlQuery" healthy_answer = JStr sql /\
    pool_calls healthy_trace = [PoolQuery schema_query; PoolQuery sql] /\
    (field "type" (body healthy_answer) = JStr (js "success") <->
     exists result,
       pool_query healthy
         [PoolQuery schema_query; GenerateContent (sql_prompt msg (introspected healthy))]
         sql
       = Returned result).
Proof.
  apply (executed_statement_is_reported healthy (request question)
           healthy_answer healthy_trace); run.
Defined.

Lemma envelope_fields_agree_witness :
  (data_field "hasData" healthy_answer = JBool true <->
   exists row more, data_field "preview" healthy_answer = JArr (row :: more)) /\
  (field "type" (body healthy_answer) = JStr (js "error") ->
   data_field "preview" healthy_answer = JNull /\
   data_field "fields" healthy_answer = JArr [] /\
   data_field "resultCount" healthy_answer = JNum 0 /\
   data_field "hasData" healthy_answer = JBool false) /\
  (field "type" (body healthy_answer) = JStr (js "success") ->
   exists previewed names,
     data_field "preview" healthy_answer = JArr (map JObj previewed) /\
     (List.length previewed <= 10)%nat /\
     data_field "fields" healthy_answer = JArr (map JStr names)).
Proof.
  apply (envelope_fields_agree healthy (request question) healthy_answer healthy_trace);
    run.
Defined.

(* ================================================================= *)
(** ** More about the narrator (lines 145-190) *)

(** X11. The narrator shows the model the first five rows and no more: two
    successful results with the same first five rows and the same reported
    row count give the same prompt, hence the same call to the model,
    whatever their other rows and their field names. *)
Theorem narration_reads_five_rows (query : jsstring) (msg : JsVal)
  (d1 d2 : list Row) (rc : option Z) (f1 f2 : list jsstring) :
  firstn 5 d1 = firstn 5 d2 ->
  narration_prompt query (SqlSuccess d1 rc f1) msg
  = narration_prompt query (SqlSuccess d2 rc f2) msg /\
  forall env tr,
    generateNaturalResponse query (SqlSuccess d1 rc f1) msg env tr
    = generateNaturalResponse query (SqlSuccess d2 rc f2) msg env tr.
Proof.
  intros H.
  assert (E : narration_prompt query (SqlSuccess d1 rc f1) msg
              = narration_prompt query (SqlSuccess d2 rc f2) msg).
  { destruct d1 as [|r1 d1], d2 as [|r2 d2]; try discriminate H; [reflexivity|].
    unfold narration_prompt. now rewrite H. }
  split; [exact E|]. intros env tr.
  unfold generateNaturalResponse. now rewrite E.
Qed.

Lemma narration_reads_five_rows_witness :
  narration_prompt sample_sql (SqlSuccess six_rows (Some 6%Z) []) question
  = narration_prompt sample_sql (SqlSuccess six_other_rows (Some 6%Z) [js "id"]) question /\
  forall env tr,
    generateNaturalResponse sample_sql (SqlSuccess six_rows (Some 6%Z) []) question env tr
    = generateNaturalResponse sample_sql
        (SqlSuccess six_other_rows (Some 6%Z) [js "id"]) question env tr.
Proof.
  apply (narration_reads_five_rows sample_sql question six_rows six_other_rows
           (Some 6%Z) [] [js "id"]).
  reflexivity.
Defined.

(* ================================================================= *)
(** ** The health endpoint (lines 254-270) *)

(** X12. The health endpoint always answers, after exactly one probe query:
    200 [healthy]/[connected] exactly when the probe succeeds, and otherwise
    500 [unhealthy]/[disconnected] with the message of the pool's error.
    Both answers carry the timestamp. *)
Theorem health_reflects_the_probe (env : Env) (now : jsstring) :
  exists resp,
    get_api_health now env [] = (Returned resp, [PoolQuery health_probe]) /\
    field "timestamp" (body resp) = JStr now /\
    (status resp = 200%N <->
     exists result, pool_query env [] health_probe = Returned result) /\
    (status resp = 200%N ->
     field "status" (body resp) = JStr (js "healthy") /\
     field "database" (body resp) = JStr (js "connected")) /\
    (forall e,
       pool_query env [] health_probe = Thrown e ->
       status resp = 500%N /\
       field "status" (body resp) = JStr (js "unhealthy") /\
       field "database" (body resp) = JStr (js "disconnected") /\
       field "error" (body resp) = JStr (message e)).
Proof.
  unfold get_api_health, try_catch, bind, await_pool_query, ret.
  destruct (pool_query env [] health_probe) as [result|e] eqn:E;
    eexists; (split; [reflexivity|]); (split; [reflexivity|]).
  - split; [split; [now exists result | reflexivity]|].
    split; [now intros _ | discriminate].
  - split; [split; [discriminate | intros [r H]; discriminate H]|].
    split; [discriminate|]. intros e' [= <-]. now repeat split.
Qed.
